(** * 3D-print quoting core: geometry analyzer, print simulator, pricing

    A shallow embedding of the numeric core of the application:

    - [signedVolumeOfTriangle], [calculateVolume] and the volume part of the
      [Model] effect (components/ThreeDViewer.tsx);
    - [calculateQuoteLocally] (the print simulator) and the [finalPrice]
      memo of [App] (the pricing engine).

    JavaScript numbers are idealised as exact rationals ([Q]): rounding
    error, overflow and signed zero are outside the model.  Equalities
    between computed quantities are therefore stated with [==] ([Qeq]).
    The two non-finite values the code can meet are modelled where they
    occur: [NaN], produced by arithmetic on an out-of-range buffer read,
    and [Infinity], the upper bound of the last pricing tier.  A division
    in the model agrees with the JavaScript one whenever the divisor is
    non-zero.  Where the code rounds to an integer ([Math.ceil],
    [Math.round], [toFixed]) the model rounds the exact value; a double
    that lies a rounding error away from an integer can round the other
    way. *)

From Stdlib Require Import String.
From Stdlib Require Import QArith Qabs Qround Qminmax Qreduction.
From Stdlib Require Import List Bool Arith Lia Lqa Permutation Sorted.
Import ListNotations.

Local Open Scope Q_scope.

(** ** Numbers that may be NaN *)

Module Js.

Inductive num : Type :=
| Fin (q : Q)
| NaN.

Definition add (a b : num) : num :=
  match a, b with
  | Fin x, Fin y => Fin (x + y)
  | _, _ => NaN
  end.

Definition abs (a : num) : num :=
  match a with
  | Fin x => Fin (Qabs x)
  | NaN => NaN
  end.

Definition div (a : num) (d : Q) : num :=
  match a with
  | Fin x => Fin (x / d)
  | NaN => NaN
  end.

(** Equality of values: [Qeq] on finite numbers. *)
Definition eq (a b : num) : Prop :=
  match a, b with
  | Fin x, Fin y => x == y
  | NaN, NaN => True
  | _, _ => False
  end.

End Js.

Infix "=js=" := Js.eq (at level 70, no associativity).

(** ** THREE.Vector3 *)

Record Vector3 : Type := vec3 { vx : Q; vy : Q; vz : Q }.

Definition dot (a b : Vector3) : Q :=
  vx a * vx b + vy a * vy b + vz a * vz b.

Definition cross (a b : Vector3) : Vector3 :=
  vec3 (vy a * vz b - vz a * vy b)
       (vz a * vx b - vx a * vz b)
       (vx a * vy b - vy a * vx b).

Definition vadd (a b : Vector3) : Vector3 :=
  vec3 (vx a + vx b) (vy a + vy b) (vz a + vz b).

(** ** Geometry analyzer (components/ThreeDViewer.tsx) *)

Definition signedVolumeOfTriangle (p1 p2 p3 : Vector3) : Q :=
  dot p1 (cross p2 p3) / 6.

(** A [THREE.BufferGeometry]: the [position] attribute holds [count]
    vertices, the optional [index] attribute holds vertex numbers. *)
Record BufferGeometry : Type := mkGeometry {
  isBufferGeometry : bool;
  position : list Vector3;
  index : option (list nat)
}.

(** [p.fromBufferAttribute(position, i)]: past the end of the buffer the
    three components read are [undefined]. *)
Definition fromBufferAttribute (pos : list Vector3) (i : nat) : option Vector3 :=
  nth_error pos i.

(** [index.getX(i)] followed by the position read. *)
Definition fromIndexed (pos : list Vector3) (idx : list nat) (i : nat)
  : option Vector3 :=
  match nth_error idx i with
  | Some j => fromBufferAttribute pos j
  | None => None
  end.

(** One loop body: read three vertices starting at [i] and add the signed
    volume of their triangle; an undefined component makes the sum NaN. *)
Definition accumulate (read : nat -> option Vector3) (i : nat) (volume : Js.num)
  : Js.num :=
  match read i, read (i + 1)%nat, read (i + 2)%nat with
  | Some p1, Some p2, Some p3 =>
      Js.add volume (Js.Fin (signedVolumeOfTriangle p1 p2 p3))
  | _, _, _ => Js.NaN
  end.

(** [for (let i = start; i < count; i += 3) volume = body i volume]. *)
Fixpoint for_by3 (fuel i count : nat) (body : nat -> Js.num -> Js.num)
  (volume : Js.num) : Js.num :=
  match fuel with
  | O => volume
  | S fuel' =>
      if (i <? count)%nat
      then for_by3 fuel' (i + 3) count body (body i volume)
      else volume
  end.

Definition calculateVolume (geometry : BufferGeometry) : Js.num :=
  if negb (isBufferGeometry geometry) then Js.Fin 0
  else
    let pos := position geometry in
    match index geometry with
    | Some idx =>
        let count := length idx in
        Js.abs (for_by3 count 0 count (accumulate (fromIndexed pos idx)) (Js.Fin 0))
    | None =>
        let count := length pos in
        Js.abs (for_by3 count 0 count (accumulate (fromBufferAttribute pos)) (Js.Fin 0))
    end.

(** The volume reported by the [Model] effect: the volumes of all mesh
    geometries of the loaded object are added up (in mm3) and the total is
    divided by 1000. *)
Definition totalVolumeMm3 (geometries : list BufferGeometry) : Js.num :=
  fold_left (fun total geom => Js.add total (calculateVolume geom))
            geometries (Js.Fin 0).

Definition volume_cm3_of (geometries : list BufferGeometry) : Js.num :=
  Js.div (totalVolumeMm3 geometries) 1000.

(** *** Meshes as the loader produces them *)

Definition Triangle : Type := (Vector3 * Vector3 * Vector3)%type.

(** A triangle soup: three consecutive positions per facet, no index. *)
Definition soup_positions (fs : list Triangle) : list Vector3 :=
  flat_map (fun f => let '(a, b, c) := f in [a; b; c]) fs.

Definition soup_geometry (fs : list Triangle) : BufferGeometry :=
  mkGeometry true (soup_positions fs) None.

(** An indexed mesh: a vertex pool and three vertex numbers per facet. *)
Definition Face : Type := (nat * nat * nat)%type.

Definition face_indices (faces : list Face) : list nat :=
  flat_map (fun f => let '(i, j, k) := f in [i; j; k]) faces.

Definition indexed_geometry (pool : list Vector3) (faces : list Face)
  : BufferGeometry :=
  mkGeometry true pool (Some (face_indices faces)).

Definition face_in_range (pool : list Vector3) (f : Face) : bool :=
  let '(i, j, k) := f in
  ((i <? length pool) && (j <? length pool) && (k <? length pool))%nat.

Definition faces_in_range (pool : list Vector3) (faces : list Face) : bool :=
  forallb (face_in_range pool) faces.

Definition origin : Vector3 := vec3 0 0 0.

Definition face_triangle (pool : list Vector3) (f : Face) : Triangle :=
  let '(i, j, k) := f in
  (nth i pool origin, nth j pool origin, nth k pool origin).

(** The quantity the specification describes: the sum over all facets
    (p1, p2, p3) of the signed tetrahedron volume p1 . (p2 x p3) / 6.  The
    triple product is written out in coordinates; nothing here calls the
    code's functions. *)
Definition facet_volume (f : Triangle) : Q :=
  let '(p1, p2, p3) := f in
  (vx p1 * (vy p2 * vz p3 - vz p2 * vy p3)
   + vy p1 * (vz p2 * vx p3 - vx p2 * vz p3)
   + vz p1 * (vx p2 * vy p3 - vy p2 * vx p3)) / 6.

Fixpoint sum_facet_volumes (fs : list Triangle) : Q :=
  match fs with
  | [] => 0
  | f :: fs' => facet_volume f + sum_facet_volumes fs'
  end.

(** The buffer read by [read] holds the facets [fs] from vertex [i] on. *)
Definition holds_facets (read : nat -> option Vector3) (i : nat)
  (fs : list Triangle) : Prop :=
  forall k a b c, nth_error fs k = Some (a, b, c) ->
    read (i + 3 * k)%nat = Some a /\
    read (i + 3 * k + 1)%nat = Some b /\
    read (i + 3 * k + 2)%nat = Some c.

(** A tetrahedron with 10 mm legs at the origin, facets wound outwards. *)
Definition tetra_pool : list Vector3 :=
  [vec3 0 0 0; vec3 10 0 0; vec3 0 10 0; vec3 0 0 10].

Definition tetra_faces : list Face :=
  [(0, 2, 1); (0, 1, 3); (0, 3, 2); (1, 2, 3)]%nat.

Definition tetra_facets : list Triangle :=
  map (face_triangle tetra_pool) tetra_faces.

(** *** Translation and closedness *)

Definition translate (t : Vector3) (geometry : BufferGeometry) : BufferGeometry :=
  mkGeometry (isBufferGeometry geometry)
             (map (vadd t) (position geometry))
             (index geometry).

(** Directed edges of the facets, compared by value. *)
Definition Edge : Type := (Vector3 * Vector3)%type.

Definition facet_edges (f : Triangle) : list Edge :=
  let '(a, b, c) := f in [(a, b); (b, c); (c, a)].

Definition mesh_edges (fs : list Triangle) : list Edge :=
  flat_map facet_edges fs.

Definition vector_eqb (a b : Vector3) : bool :=
  Qeq_bool (vx a) (vx b) && Qeq_bool (vy a) (vy b) && Qeq_bool (vz a) (vz b).

Definition edge_eqb (e e' : Edge) : bool :=
  vector_eqb (fst e) (fst e') && vector_eqb (snd e) (snd e').

Definition reverse_edge (e : Edge) : Edge := (snd e, fst e).

Definition count_edge (e : Edge) (es : list Edge) : nat :=
  length (filter (edge_eqb e) es).

(** A mesh is closed and consistently wound when every directed edge is
    used by the facets exactly as often as the opposite edge: no edge is
    left on a boundary and neighbouring facets traverse a shared edge in
    opposite directions. *)
Definition closed_mesh (fs : list Triangle) : bool :=
  let es := mesh_edges fs in
  forallb (fun e => (count_edge e es =? count_edge (reverse_edge e) es)%nat) es.

Definition translate_triangle (t : Vector3) (f : Triangle) : Triangle :=
  let '(a, b, c) := f in (vadd t a, vadd t b, vadd t c).

(** What a directed edge contributes to the volume when the mesh is moved
    by [t], and the total over a list of edges. *)
Definition edge_term (t : Vector3) (e : Edge) : Q :=
  dot t (cross (fst e) (snd e)).

Fixpoint edge_sum (g : Edge -> Q) (es : list Edge) : Q :=
  match es with
  | [] => 0
  | e :: es' => g e + edge_sum g es'
  end.

(** Coordinates in lowest terms: equal vectors get identical keys. *)
Definition vector_key (v : Vector3) : Vector3 :=
  vec3 (Qred (vx v)) (Qred (vy v)) (Qred (vz v)).

Definition edge_key (e : Edge) : Edge :=
  (vector_key (fst e), vector_key (snd e)).

(** ** Shared records (types.ts) *)

Record Price : Type := mkPrice { toman : Q; usd : Q }.

Record Dimensions : Type := mkDimensions { dim_x : Q; dim_y : Q; dim_z : Q }.

(** [Material]; the display-only fields ([nameKey], [colors]) play no part
    in the computation and are left out. *)
Record Material : Type := mkMaterial {
  material_id : string;
  material_name : string;
  price_per_kg : Price;
  density_g_cm3 : Q;
  max_size_mm : Dimensions;
  speed_modifier_percent : Q;
  max_flow_rate_mm3_s : option Q
}.

Inductive hours_bound : Type :=
| Hours (h : Q)
| Infinity.

Record PricingTier : Type := mkTier {
  tier_id : string;
  from_hours : Q;
  to_hours : hours_bound;
  discount_percent : Q
}.

(** [Settings]; the option lists and the admin password are not read by
    the simulator or by the pricing memo. *)
Record Settings : Type := mkSettings {
  pricingTiers : list PricingTier;
  machineRatePerHour : Price;
  speed_wall_mm_s : Q;
  speed_infill_mm_s : Q;
  speed_top_bottom_mm_s : Q;
  speed_travel_mm_s : Q;
  support_overhead_percent : Q;
  acceleration_overhead_factor : Q
}.

(** [ValidationResult].  The volume is the number the geometry analyzer
    reported, which [handleModelLoad] stores as it is, so it may be NaN. *)
Record ValidationResult : Type := mkValidation {
  is_printable : bool;
  errors : list string;
  volume_cm3 : option Js.num;
  dimensions_mm : option Dimensions;
  is_repairable : option bool
}.

Record QuoteData : Type := mkQuoteData {
  quote_time : string;
  quote_material : Q;
  quote_price : Q;
  material_cost : Q;
  machine_time_cost : Q
}.

Inductive Language : Type := fa | en.

(** ** Results of code that may throw *)

Inductive outcome (A : Type) : Type :=
| Returned (a : A)
| Thrown (message : string).

Arguments Returned {A} a.
Arguments Thrown {A} message.

(** Truthiness of an optional number: [undefined] and [0] are falsy. *)
Definition truthy (x : option Q) : bool :=
  match x with
  | Some q => negb (Qeq_bool q 0)
  | None => false
  end.

(** Truthiness of an optional number that may be NaN: [undefined], [0] and
    [NaN] are falsy. *)
Definition truthy_number (x : option Js.num) : bool :=
  match x with
  | Some (Js.Fin q) => negb (Qeq_bool q 0)
  | Some Js.NaN => false
  | None => false
  end.

(** Truthiness of an optional object: only [undefined] is falsy. *)
Definition present {A : Type} (x : option A) : bool :=
  match x with
  | Some _ => true
  | None => false
  end.

Definition Qlt_bool (x y : Q) : bool := negb (Qle_bool y x).

(** ** Print simulator: [calculateQuoteLocally] *)

Record RawQuote : Type := mkRawQuote {
  time_hours : Q;
  material_grams : Q;
  speedScalingFactor : Q
}.

Definition missing_geometry : string :=
  "Cannot calculate quote without model geometry.".

Module Sim.
Section Simulation.

Variables (dims_mm : Dimensions) (total_volume_cm3 : Q).
Variable material : Material.
Variables (nozzleDiameter layerHeight infillPercent wallCount : Q).
Variable settings : Settings.
Variable supportPercent : Q.

(* Derived slicer parameters *)
Definition line_width_mm : Q := nozzleDiameter * (12 # 10).
Definition material_density_g_cm3 : Q := density_g_cm3 material.
Definition speed_modifier : Q := 1 - speed_modifier_percent material / 100.
Definition top_bottom_thickness_mm : Q := nozzleDiameter * wallCount.

(* Flow rate speed adjustment *)
Definition theoreticalFlowRate : Q :=
  layerHeight * line_width_mm * speed_infill_mm_s settings.

Definition speedScalingFactor : Q :=
  match max_flow_rate_mm3_s material with
  | Some maxFlowRate =>
      if truthy (Some maxFlowRate) then
        if Qlt_bool maxFlowRate theoreticalFlowRate
        then maxFlowRate / theoreticalFlowRate
        else 1
      else 1
  | None => 1
  end.

Definition effective_speed_wall_mm_s : Q :=
  speed_wall_mm_s settings * speedScalingFactor.
Definition effective_speed_infill_mm_s : Q :=
  speed_infill_mm_s settings * speedScalingFactor.
Definition effective_speed_top_bottom_mm_s : Q :=
  speed_top_bottom_mm_s settings * speedScalingFactor.

(* Layer-based estimations *)
Definition num_layers : Q := dim_z dims_mm / layerHeight.
Definition avg_layer_area_mm2 : Q := (total_volume_cm3 * 1000) / dim_z dims_mm.
Definition avg_perimeter_mm : Q := 2 * (dim_x dims_mm + dim_y dims_mm).

(* Path length estimations (per layer) *)
Definition wall_path_length_per_layer_mm : Q := avg_perimeter_mm * wallCount.
Definition wall_area_per_layer_mm2 : Q :=
  wall_path_length_per_layer_mm * line_width_mm.
Definition infill_area_per_layer_mm2 : Q :=
  Qmax 0 (avg_layer_area_mm2 - wall_area_per_layer_mm2).
Definition infill_path_length_per_layer_mm : Q :=
  (infill_area_per_layer_mm2 * (infillPercent / 100)) / line_width_mm.
Definition num_top_bottom_layers : Q :=
  inject_Z (Qceiling (top_bottom_thickness_mm / layerHeight)) * 2.
Definition solid_layer_path_length_mm : Q := avg_layer_area_mm2 / line_width_mm.

(* Total time calculation (in seconds) *)
Definition time_walls_s : Q :=
  (wall_path_length_per_layer_mm * num_layers) / effective_speed_wall_mm_s.
Definition time_infill_s : Q :=
  (infill_path_length_per_layer_mm * num_layers) / effective_speed_infill_mm_s.
Definition time_top_bottom_s : Q :=
  (solid_layer_path_length_mm * num_top_bottom_layers)
  / effective_speed_top_bottom_mm_s.
Definition time_travel_s : Q :=
  num_layers * ((dim_x dims_mm + dim_y dims_mm) * (1 # 2))
  / speed_travel_mm_s settings.

Definition total_print_time_s : Q :=
  time_walls_s + time_infill_s + time_top_bottom_s.
Definition time_support_s : Q := total_print_time_s * (supportPercent / 100).
Definition base_time_s : Q :=
  total_print_time_s + time_travel_s + time_support_s.

Definition final_time_s : Q :=
  base_time_s * acceleration_overhead_factor settings * speed_modifier.
Definition time_hours : Q := final_time_s / 3600.

(* Total material calculation (in grams) *)
Definition wall_volume_mm3 : Q :=
  wall_path_length_per_layer_mm * line_width_mm * layerHeight * num_layers.
Definition infill_volume_mm3 : Q :=
  infill_path_length_per_layer_mm * line_width_mm * layerHeight * num_layers.
Definition top_bottom_volume_mm3 : Q :=
  solid_layer_path_length_mm * line_width_mm * layerHeight
  * num_top_bottom_layers.

Definition model_volume_cm3 : Q :=
  (wall_volume_mm3 + infill_volume_mm3 + top_bottom_volume_mm3) / 1000.
Definition support_volume_cm3 : Q := model_volume_cm3 * (supportPercent / 100).
Definition final_volume_cm3 : Q := model_volume_cm3 + support_volume_cm3.
Definition material_grams : Q := final_volume_cm3 * material_density_g_cm3.

Definition result : RawQuote :=
  mkRawQuote time_hours material_grams speedScalingFactor.

End Simulation.
End Sim.

Definition calculateQuoteLocally (validationResult : ValidationResult)
  (material : Material)
  (nozzleDiameter layerHeight infillPercent wallCount : Q)
  (settings : Settings) (supportPercent : Q) : outcome RawQuote :=
  if negb (truthy_number (volume_cm3 validationResult))
     || negb (present (dimensions_mm validationResult))
  then Thrown missing_geometry
  else
    match volume_cm3 validationResult, dimensions_mm validationResult with
    | Some (Js.Fin total_volume_cm3), Some dims_mm =>
        Returned (Sim.result dims_mm total_volume_cm3 material nozzleDiameter
                    layerHeight infillPercent wallCount settings supportPercent)
    | _, _ => Thrown missing_geometry
    end.

(** ** Pricing engine: the [finalPrice] memo of [App] *)

(** [Array.prototype.sort] with the comparator
    [(a, b) => a.from_hours - b.from_hours].  The sort is stable, so its
    result is the unique from_hours-ordered arrangement that keeps tiers
    with equal [from_hours] in their original order; an insertion sort that
    puts an element in front of its equals computes it. *)
Fixpoint insert_tier (t : PricingTier) (sorted : list PricingTier)
  : list PricingTier :=
  match sorted with
  | [] => [t]
  | u :: rest =>
      if Qle_bool (from_hours t) (from_hours u)
      then t :: u :: rest
      else u :: insert_tier t rest
  end.

Fixpoint sort_tiers (tiers : list PricingTier) : list PricingTier :=
  match tiers with
  | [] => []
  | t :: rest => insert_tier t (sort_tiers rest)
  end.

Definition below_bound (h : Q) (b : hours_bound) : bool :=
  match b with
  | Hours q => Qlt_bool h q
  | Infinity => true
  end.

(** The predicate given to [find]:
    [totalHours >= tier.from_hours && totalHours < tier.to_hours]. *)
Definition tier_applies (totalHours : Q) (tier : PricingTier) : bool :=
  Qle_bool (from_hours tier) totalHours && below_bound totalHours (to_hours tier).

Definition applicableTier (tiers : list PricingTier) (totalHours : Q)
  : option PricingTier :=
  find (tier_applies totalHours) (sort_tiers tiers).

Definition discountPercent (tiers : list PricingTier) (totalHours : Q) : Q :=
  match applicableTier tiers totalHours with
  | Some tier => discount_percent tier
  | None => 0
  end.

(** [Math.ceil(p / 1000) * 1000]. *)
Definition round_toman (p : Q) : Q := inject_Z (Qceiling (p / 1000)) * 1000.

(** [parseFloat(p.toFixed(2))]: the nearest multiple of 1/100, a tie going
    away from zero; from 1e21 on, [toFixed] prints the number itself. *)
Definition round_usd (p : Q) : Q :=
  if Qle_bool (inject_Z (10 ^ 21)) (Qabs p) then p
  else
    let n := inject_Z (Qfloor (Qabs p * 100 + (1 # 2))) / 100 in
    if Qlt_bool p 0 then - n else n.

Definition round_price (language : Language) (p : Q) : Q :=
  match language with
  | fa => round_toman p
  | en => round_usd p
  end.

Record PriceSummary : Type := mkSummary {
  finalPrice : Q;
  discountAmount : Q;
  totalMaterialCost : Q;
  totalMachineCost : Q
}.

(** The memo, with the array it works on threaded through: the second
    component is [settings.pricingTiers] as the call leaves it ([sort]
    orders the array it is called on, in place). *)
Definition finalPriceMemo (rawQuote : option RawQuote) (quantity : Q)
  (quoteData : option QuoteData) (pricingTiers : list PricingTier)
  (language : Language) : PriceSummary * list PricingTier :=
  match rawQuote, quoteData with
  | Some rawQuote, Some quoteData =>
      if Qeq_bool quantity 0 then (mkSummary 0 0 0 0, pricingTiers)
      else
        let totalHours := time_hours rawQuote * quantity in
        let sortedTiers := sort_tiers pricingTiers in
        let applicableTier := find (tier_applies totalHours) sortedTiers in
        let discountPercent :=
          match applicableTier with
          | Some tier => discount_percent tier
          | None => 0
          end in
        let singleMachineCost := machine_time_cost quoteData in
        let singleMaterialCost := material_cost quoteData in
        let totalMachineCost := singleMachineCost * quantity in
        let totalMaterialCost := singleMaterialCost * quantity in
        let calculatedDiscount := totalMachineCost * (discountPercent / 100) in
        let finalMachineCost := totalMachineCost - calculatedDiscount in
        let finalCalculatedPrice :=
          round_price language (totalMaterialCost + finalMachineCost) in
        (mkSummary finalCalculatedPrice calculatedDiscount
                   totalMaterialCost totalMachineCost,
         sortedTiers)
  | _, _ => (mkSummary 0 0 0 0, pricingTiers)
  end.

(** *** Tier tables *)

(** [h] lies in the half-open interval [from_hours, to_hours) of [t]. *)
Definition in_tier (h : Q) (t : PricingTier) : Prop :=
  from_hours t <= h
  /\ match to_hours t with Hours e => h < e | Infinity => True end.

(** The table invariant of the data model: every non-negative number of
    hours lies in exactly one tier. *)
Definition well_formed_tiers (tiers : list PricingTier) : Prop :=
  forall h : Q, 0 <= h -> length (filter (tier_applies h) tiers) = 1%nat.

Definition from_le (t u : PricingTier) : Prop := from_hours t <= from_hours u.

Definition discount_le (t u : PricingTier) : Prop :=
  discount_percent t <= discount_percent u.

(** Discounts that do not fall from one tier to the next, the tiers taken
    in ascending [from_hours] order. *)
Definition ascending_discounts (tiers : list PricingTier) : Prop :=
  Sorted discount_le (sort_tiers tiers).

(** A checkable sufficient condition for [well_formed_tiers]: the tiers
    start at zero hours, each one is non-empty and ends where the next one
    starts, and the last one is unbounded. *)
Fixpoint chained_from (start : Q) (tiers : list PricingTier) : bool :=
  match tiers with
  | [] => false
  | t :: rest =>
      Qeq_bool (from_hours t) start &&
      match to_hours t, rest with
      | Infinity, [] => true
      | Hours e, _ :: _ => Qlt_bool start e && chained_from e rest
      | _, _ => false
      end
  end.

(** The table of DEFAULT_SETTINGS (settings.ts). *)
Definition default_tiers : list PricingTier :=
  [ mkTier "tier1" 0 (Hours 500) 0;
    mkTier "tier2" 500 (Hours 1500) 10;
    mkTier "tier3" 1500 (Hours 2500) 20;
    mkTier "tier4" 2500 Infinity 30 ].

(** The two-tier table of the discount scenario. *)
Definition scenario_tiers : list PricingTier :=
  [ mkTier "tier1" 0 (Hours 500) 0;
    mkTier "tier2" 500 (Hours 1500) 10 ].

(** The same two tiers as an administrator may have entered them, the
    later one first. *)
Definition unsorted_tiers : list PricingTier :=
  [ mkTier "tier2" 500 (Hours 1500) 10;
    mkTier "tier1" 0 (Hours 500) 0 ].

(** A table that covers every hour exactly once but gives the larger
    discount to the shorter jobs. *)
Definition falling_tiers : list PricingTier :=
  [ mkTier "tier1" 0 (Hours 500) 10;
    mkTier "tier2" 500 Infinity 0 ].

(** A 600 hour job: 1.234 of material, 1080 of machine time. *)
Definition long_job : RawQuote := mkRawQuote 600 44 1.

Definition long_job_quote : QuoteData :=
  mkQuoteData "600h 0m" 44 (108123 # 100) (1234 # 1000) 1080.

(** *** Sample inputs, from DEFAULT_SETTINGS (settings.ts) *)

Definition with_max_flow_rate (m : Material) (rate : option Q) : Material :=
  mkMaterial (material_id m) (material_name m) (price_per_kg m)
             (density_g_cm3 m) (max_size_mm m) (speed_modifier_percent m) rate.

Definition with_volume (v : ValidationResult) (volume : option Js.num)
  : ValidationResult :=
  mkValidation (is_printable v) (errors v) volume (dimensions_mm v)
               (is_repairable v).

Definition pla : Material :=
  mkMaterial "pla" "PLA" (mkPrice 1700000 28) (124 # 100)
             (mkDimensions 380 380 380) 0 (Some 20).

Definition default_settings : Settings :=
  mkSettings default_tiers (mkPrice 110000 (18 # 10)) 70 100 50 200 10
             (115 # 100).

(** The validation result [handleModelLoad] stores: the AI's answer with
    its volume and dimensions overwritten by what the viewer measured. *)
Definition finalResult (aiResult : ValidationResult) (model_volume_cm3 : Js.num)
  (model_dimensions_mm : Dimensions) : ValidationResult :=
  mkValidation (is_printable aiResult) (errors aiResult)
               (Some model_volume_cm3) (Some model_dimensions_mm)
               (is_repairable aiResult).

(** A 100 mm cube: 1000 cm3. *)
Definition cube_dims : Dimensions := mkDimensions 100 100 100.

Definition cube : ValidationResult :=
  mkValidation true [] (Some (Js.Fin 1000)) (Some cube_dims) None.


(** ** Further definitions: the volume loop seen as a fold *)

(** What one iteration reads, and what it does to the running volume. *)
Definition VertexTriple : Type :=
  (option Vector3 * option Vector3 * option Vector3)%type.

Definition read_triple (read : nat -> option Vector3) (i : nat) : VertexTriple :=
  (read i, read (i + 1)%nat, read (i + 2)%nat).

Definition add_triple (volume : Js.num) (t : VertexTriple) : Js.num :=
  match t with
  | (Some p1, Some p2, Some p3) =>
      Js.add volume (Js.Fin (signedVolumeOfTriangle p1 p2 p3))
  | _ => Js.NaN
  end.

(** The triples read by [n] iterations that start at vertex [i]. *)
Fixpoint triples (read : nat -> option Vector3) (i n : nat) : list VertexTriple :=
  match n with
  | O => []
  | S n' => read_triple read i :: triples read (i + 3) n'
  end.

Definition triple_complete (t : VertexTriple) : bool :=
  match t with
  | (Some _, Some _, Some _) => true
  | _ => false
  end.

Definition face_reads (pool : list Vector3) (f : Face) : VertexTriple :=
  let '(i, j, k) := f in (nth_error pool i, nth_error pool j, nth_error pool k).

(** Facets with the opposite winding, and scaled by a factor. *)
Definition flip_triangle (f : Triangle) : Triangle :=
  let '(a, b, c) := f in (a, c, b).

Definition vscale (k : Q) (a : Vector3) : Vector3 :=
  vec3 (k * vx a) (k * vy a) (k * vz a).

Definition scale_triangle (k : Q) (f : Triangle) : Triangle :=
  let '(a, b, c) := f in (vscale k a, vscale k b, vscale k c).

(** The sum, over the meshes of a model, of the absolute signed sums. *)
Fixpoint sum_abs_volumes (meshes : list (list Triangle)) : Q :=
  match meshes with
  | [] => 0
  | fs :: rest => Qabs (sum_facet_volumes fs) + sum_abs_volumes rest
  end.

Definition nonnegative (v : Js.num) : Prop :=
  match v with
  | Js.Fin q => 0 <= q
  | Js.NaN => True
  end.

(** ** Further definitions: simulator inputs and outcomes *)

Definition with_speed_infill (s : Settings) (speed : Q) : Settings :=
  mkSettings (pricingTiers s) (machineRatePerHour s) (speed_wall_mm_s s) speed
             (speed_top_bottom_mm_s s) (speed_travel_mm_s s)
             (support_overhead_percent s) (acceleration_overhead_factor s).

(** Two outcomes that a caller cannot tell apart: the same error, or
    results with equal numbers. *)
Definition same_outcome (a b : outcome RawQuote) : Prop :=
  match a, b with
  | Returned r, Returned r' =>
      time_hours r == time_hours r'
      /\ material_grams r == material_grams r'
      /\ speedScalingFactor r == speedScalingFactor r'
  | Thrown x, Thrown y => x = y
  | _, _ => False
  end.

(** ** Further definitions: [calculateAndSetQuote] of [App] *)


(** [Option] of types.ts, without its display-name key. *)
Record SettingOption : Type := mkOption {
  option_id : string;
  display_name : string;
  option_value : Q
}.



(** [Math.round]: the nearest integer, a tie going up. *)
Definition js_round (x : Q) : Z := Qfloor (x + (1 # 2)).

Definition quote_hours (time_hours : Q) : Z := Qfloor time_hours.

Definition quote_minutes (time_hours : Q) : Z :=
  js_round ((time_hours - inject_Z (quote_hours time_hours)) * 60).

Section QuoteHandler.

(** The translation function [t] of the i18n context, for a plain key and
    for the time format with its two replacements. *)
Variable t : string -> string.
Variable t_time_format : Z -> Z -> string.

Definition formatQuote (language : Language) (material : Material)
  (settings : Settings) (raw : RawQuote) : QuoteData :=
  let pricePerKg :=
    match language with
    | fa => toman (price_per_kg material)
    | en => usd (price_per_kg material)
    end in
  let ratePerHour :=
    match language with
    | fa => toman (machineRatePerHour settings)
    | en => usd (machineRatePerHour settings)
    end in
  let materialCost := (material_grams raw / 1000) * pricePerKg in
  let machineTimeCost := time_hours raw * ratePerHour in
  let price := round_price language (materialCost + machineTimeCost) in
  let hours := quote_hours (time_hours raw) in
  let minutes := quote_minutes (time_hours raw) in
  mkQuoteData (t_time_format hours minutes) (round_usd (material_grams raw))
              price materialCost machineTimeCost.


End QuoteHandler.

(** The quantity field: [Math.max(1, parseInt(value, 10) || 1)], given
    what [parseInt] made of the text ([None] for NaN). *)
Definition quantity_of_input (parsed : option Z) : Z :=
  Z.max 1 (match parsed with
           | Some z => if (z =? 0)%Z then 1%Z else z
           | None => 1%Z
           end).

(** ** Further definitions: tier tables in other orders and after storage *)

(** No two tiers start at the same hour. *)
Fixpoint distinct_from_hours (tiers : list PricingTier) : bool :=
  match tiers with
  | [] => true
  | t :: rest =>
      forallb (fun u => negb (Qeq_bool (from_hours t) (from_hours u))) rest
      && distinct_from_hours rest
  end.

(** Two tiers that start at the same hour, in both orders. *)
Definition tied_tiers : list PricingTier :=
  [ mkTier "a" 0 (Hours 500) 10; mkTier "b" 0 (Hours 500) 20 ].

(** A number as [JSON.parse(JSON.stringify(_))] gives it back:
    [JSON.stringify] writes Infinity as [null]. *)
Inductive stored_number : Type :=
| Stored (q : Q)
| StoredNull.

Record StoredTier : Type := mkStoredTier {
  stored_id : string;
  stored_from : Q;
  stored_to : stored_number;
  stored_discount : Q
}.

Definition json_roundtrip_tier (t : PricingTier) : StoredTier :=
  mkStoredTier (tier_id t) (from_hours t)
               (match to_hours t with
                | Hours e => Stored e
                | Infinity => StoredNull
                end)
               (discount_percent t).

(** The tier as the comparisons of the lookup see it: in [<] a [null]
    operand is converted to 0, so a tier whose [to_hours] is [null]
    behaves like one that ends at 0 hours. *)
Definition as_compared (t : StoredTier) : PricingTier :=
  mkTier (stored_id t) (stored_from t)
         (match stored_to t with
          | Stored e => Hours e
          | StoredNull => Hours 0
          end)
         (stored_discount t).

(** [settings.pricingTiers] after [saveSettings] and [loadSettings] (and
    after the copy the admin panel starts from), as the lookup sees it. *)
Definition reloaded_tiers (tiers : list PricingTier) : list PricingTier :=
  map (fun t => as_compared (json_roundtrip_tier t)) tiers.

(** ** Further definitions: print options (components/PrintOptions) *)

(** [values.includes(x)]. *)
Definition includes (values : list Q) (x : Q) : bool :=
  existsb (Qeq_bool x) values.

Definition isMaterialDisabled (dimensions : option Dimensions)
  (material : Material) : bool :=
  match dimensions with
  | None => false
  | Some d =>
      Qlt_bool (dim_x (max_size_mm material)) (dim_x d)
      || Qlt_bool (dim_y (max_size_mm material)) (dim_y d)
      || Qlt_bool (dim_z (max_size_mm material)) (dim_z d)
  end.

(** The effect that switches away from a material that is too small:
    the material id selected once the effect has run. *)
Definition autoSwitchMaterial (dimensions : option Dimensions)
  (materials : list Material) (selectedMaterialId : string) : string :=
  match find (fun m => String.eqb (material_id m) selectedMaterialId)
             materials with
  | Some selectedMaterial =>
      if isMaterialDisabled dimensions selectedMaterial then
        match find (fun m => negb (isMaterialDisabled dimensions m))
                   materials with
        | Some firstValidMaterial => material_id firstValidMaterial
        | None => selectedMaterialId
        end
      else selectedMaterialId
  | None => selectedMaterialId
  end.

(** A layer height below 0.1 mm or above 75 % of the nozzle diameter. *)
Definition layer_height_out_of_range (nozzle : Q) (lh : SettingOption) : bool :=
  Qlt_bool (option_value lh) (1 # 10)
  || Qlt_bool (nozzle * (75 # 100)) (option_value lh).

Definition disabledLayerHeightValuesByNozzle (nozzles layerHeights : list SettingOption)
  (selectedNozzleId : string) : list Q :=
  match find (fun n => String.eqb (option_id n) selectedNozzleId) nozzles with
  | None => map option_value layerHeights
  | Some selectedNozzle =>
      map option_value
        (filter (layer_height_out_of_range (option_value selectedNozzle))
                layerHeights)
  end.

(** A stable sort by a numeric key ([Array.prototype.sort] with the
    comparator [(a, b) => key(a) - key(b)]). *)
Fixpoint insert_by {A : Type} (key : A -> Q) (x : A) (sorted : list A)
  : list A :=
  match sorted with
  | [] => [x]
  | y :: rest =>
      if Qle_bool (key x) (key y) then x :: y :: rest
      else y :: insert_by key x rest
  end.

Fixpoint sort_by {A : Type} (key : A -> Q) (l : list A) : list A :=
  match l with
  | [] => []
  | x :: rest => insert_by key x (sort_by key rest)
  end.

Definition key_le {A : Type} (key : A -> Q) (x y : A) : Prop := key x <= key y.

(** The effect that replaces a layer height the nozzle does not allow by
    the closest one it allows: the layer height selected afterwards. *)
Definition autoSelectLayerHeight (layerHeights : list SettingOption)
  (disabled : list Q) (selectedLayerHeight : Q) : Q :=
  if includes disabled selectedLayerHeight then
    let currentlyAvailable :=
      filter (fun lh => negb (includes disabled (option_value lh)))
             layerHeights in
    match sort_by (fun lh => Qabs (option_value lh - selectedLayerHeight))
                  currentlyAvailable with
    | closest :: _ => option_value closest
    | [] => selectedLayerHeight
    end
  else selectedLayerHeight.

(** The option lists of DEFAULT_SETTINGS used in examples. *)
Definition default_nozzles : list SettingOption :=
  [ mkOption "0.25" "0.25mm" (25 # 100); mkOption "0.4" "0.4mm" (4 # 10);
    mkOption "0.6" "0.6mm" (6 # 10) ].

Definition default_layerHeights : list SettingOption :=
  [ mkOption "0.16" "0.16mm" (16 # 100); mkOption "0.20" "0.20mm" (20 # 100);
    mkOption "0.28" "0.28mm" (28 # 100); mkOption "0.36" "0.36mm" (36 # 100) ].

Definition abs_material : Material :=
  mkMaterial "abs" "ABS" (mkPrice 1000000 17) (104 # 100)
             (mkDimensions 200 200 200) (- (10)) (Some 18).

(** ** Further definitions: the admin panel's tier handlers *)

(** [array.filter((_, i) => i !== index)], the scan being at position [i]. *)
Fixpoint filter_other_index {A : Type} (index i : nat) (l : list A) : list A :=
  match l with
  | [] => []
  | x :: rest =>
      if (i =? index)%nat then filter_other_index index (S i) rest
      else x :: filter_other_index index (S i) rest
  end.

Definition removeTier (index : nat) (tiers : list PricingTier)
  : list PricingTier :=
  filter_other_index index 0 tiers.

(** ** Further definitions: the speed notice of the quote display *)

Definition speedReductionPercent (speedAdjustment : Q) : Z :=
  js_round ((1 - speedAdjustment) * 100).

Definition shows_speed_notice (speedAdjustment : Q) : bool :=
  Qlt_bool speedAdjustment 1.

(** The part turned by a quarter turn about the vertical axis: the x and y
    extents change places. *)
Definition quarter_turn (v : ValidationResult) : ValidationResult :=
  mkValidation (is_printable v) (errors v) (volume_cm3 v)
    (match dimensions_mm v with
     | Some d => Some (mkDimensions (dim_y d) (dim_x d) (dim_z d))
     | None => None
     end)
    (is_repairable v).

(** * Properties *)

(** ** The volume loop *)

(** The code's helper computes the signed tetrahedron volume of the
    specification. *)
Lemma signedVolumeOfTriangle_spec p1 p2 p3 :
  signedVolumeOfTriangle p1 p2 p3 == facet_volume (p1, p2, p3).
Proof.
  unfold signedVolumeOfTriangle, facet_volume, dot, cross.
  cbn [vx vy vz]. reflexivity.
Qed.

Example facet_volume_corner :
  facet_volume (vec3 1 0 0, vec3 0 1 0, vec3 0 0 1) == 1 # 6
  /\ facet_volume (vec3 1 0 0, vec3 0 0 1, vec3 0 1 0) == - (1 # 6).
Proof. split; reflexivity. Qed.

Section VolumeLoop.

Variable read : nat -> option Vector3.

Lemma holds_facets_tail i f fs :
  holds_facets read i (f :: fs) -> holds_facets read (i + 3) fs.
Proof.
  intros H k a b c Hk.
  destruct (H (S k) a b c Hk) as (Ha & Hb & Hc).
  replace (i + 3 + 3 * k)%nat with (i + 3 * S k)%nat by lia.
  auto.
Qed.

(** With enough fuel the loop leaves through its guard, having added the
    signed volume of every facet. *)
Lemma for_by3_sum fs : forall fuel i v,
  holds_facets read i fs ->
  (length fs <= fuel)%nat ->
  exists r,
    for_by3 fuel i (i + 3 * length fs) (accumulate read) (Js.Fin v) = Js.Fin r
    /\ r == v + sum_facet_volumes fs.
Proof.
  induction fs as [|f fs IH]; intros fuel i v Hread Hfuel.
  - exists v. split.
    + destruct fuel; simpl; [reflexivity|].
      replace (i <? i + 0)%nat with false; [reflexivity|].
      symmetry. apply Nat.ltb_ge. lia.
    + simpl. lra.
  - destruct fuel as [|fuel]; [simpl in Hfuel; lia|].
    destruct f as [[a b] c].
    destruct (Hread 0%nat a b c eq_refl) as (Ha & Hb & Hc).
    replace (i + 3 * 0)%nat with i in Ha, Hb, Hc by lia.
    destruct (IH fuel (i + 3)%nat (v + signedVolumeOfTriangle a b c))
      as (r & Hr & Hsum).
    + eapply holds_facets_tail; eauto.
    + simpl in Hfuel. lia.
    + exists r. split.
      * cbn [for_by3 length].
        replace (i <? i + 3 * S (length fs))%nat with true
          by (symmetry; apply Nat.ltb_lt; lia).
        unfold accumulate at 2. rewrite Ha, Hb, Hc. cbn [Js.add].
        replace (i + 3 * S (length fs))%nat
          with (i + 3 + 3 * length fs)%nat by lia.
        exact Hr.
      * rewrite Hsum, signedVolumeOfTriangle_spec.
        cbn [sum_facet_volumes]. lra.
Qed.

End VolumeLoop.

(** The loop never stops for lack of fuel: any two amounts of fuel that
    cover the remaining vertices give the same result. *)
Lemma for_by3_fuel body count : forall fuel fuel' i volume,
  (count - i <= fuel)%nat -> (count - i <= fuel')%nat ->
  for_by3 fuel i count body volume = for_by3 fuel' i count body volume.
Proof.
  induction fuel as [|fuel IH]; intros fuel' i volume H H'.
  - destruct fuel' as [|fuel']; [reflexivity|]. simpl.
    replace (i <? count)%nat with false; [reflexivity|].
    symmetry. apply Nat.ltb_ge. lia.
  - destruct fuel' as [|fuel']; simpl.
    + replace (i <? count)%nat with false; [reflexivity|].
      symmetry. apply Nat.ltb_ge. lia.
    + destruct (i <? count)%nat eqn:E; [|reflexivity].
      apply Nat.ltb_lt in E. apply IH; lia.
Qed.

Lemma soup_positions_length fs : length (soup_positions fs) = (3 * length fs)%nat.
Proof.
  induction fs as [|[[a b] c] fs IH]; [reflexivity|].
  change (soup_positions (((a, b), c) :: fs)) with (a :: b :: c :: soup_positions fs).
  cbn [length]. rewrite IH. lia.
Qed.

Lemma face_indices_length faces :
  length (face_indices faces) = (3 * length faces)%nat.
Proof.
  induction faces as [|[[i j] k] faces IH]; [reflexivity|].
  change (face_indices (((i, j), k) :: faces))
    with (i :: j :: k :: face_indices faces).
  cbn [length]. rewrite IH. lia.
Qed.

Lemma soup_holds_facets fs :
  holds_facets (fromBufferAttribute (soup_positions fs)) 0 fs.
Proof.
  induction fs as [|[[a' b'] c'] fs IH]; intros k a b c Hk.
  - destruct k; discriminate.
  - destruct k as [|k].
    + injection Hk as -> -> ->. simpl. auto.
    + simpl in Hk. destruct (IH k a b c Hk) as (Ha & Hb & Hc).
      unfold fromBufferAttribute in *. simpl in Ha, Hb, Hc.
      replace (0 + 3 * S k)%nat with (S (S (S (3 * k)))) by lia.
      simpl. repeat split; assumption.
Qed.

Lemma indexed_holds_facets pool faces :
  faces_in_range pool faces = true ->
  holds_facets (fromIndexed pool (face_indices faces)) 0
               (map (face_triangle pool) faces).
Proof.
  induction faces as [|[[i' j'] k'] faces IH]; intros Hrange k a b c Hk.
  - destruct k; discriminate.
  - simpl in Hrange. apply andb_prop in Hrange as [Hf Hrange].
    destruct k as [|k].
    + simpl in Hk. injection Hk as <- <- <-.
      apply andb_prop in Hf as [Hf Hk']. apply andb_prop in Hf as [Hi Hj].
      apply Nat.ltb_lt in Hi, Hj, Hk'.
      unfold fromIndexed, fromBufferAttribute. simpl.
      repeat split; apply nth_error_nth'; assumption.
    + simpl in Hk. destruct (IH Hrange k a b c Hk) as (Ha & Hb & Hc).
      unfold fromIndexed in *. simpl in Ha, Hb, Hc.
      replace (0 + 3 * S k)%nat with (S (S (S (3 * k)))) by lia.
      simpl. repeat split; assumption.
Qed.

Lemma calculateVolume_soup fs :
  exists r, calculateVolume (soup_geometry fs) = Js.Fin r
            /\ r == Qabs (sum_facet_volumes fs).
Proof.
  unfold calculateVolume, soup_geometry. cbn [isBufferGeometry negb position index].
  rewrite soup_positions_length.
  destruct (for_by3_sum (fromBufferAttribute (soup_positions fs)) fs
              (3 * length fs) 0 0 (soup_holds_facets fs)) as (r & Hr & Hsum);
    [lia|].
  cbn [Nat.add] in Hr. rewrite Hr. exists (Qabs r). split; [reflexivity|].
  rewrite Hsum. apply Qabs_wd. lra.
Qed.

Lemma calculateVolume_indexed pool faces :
  faces_in_range pool faces = true ->
  exists r, calculateVolume (indexed_geometry pool faces) = Js.Fin r
            /\ r == Qabs (sum_facet_volumes (map (face_triangle pool) faces)).
Proof.
  intros Hrange.
  unfold calculateVolume, indexed_geometry.
  cbn [isBufferGeometry negb position index].
  rewrite face_indices_length.
  destruct (for_by3_sum (fromIndexed pool (face_indices faces))
              (map (face_triangle pool) faces)
              (3 * length faces) 0 0 (indexed_holds_facets pool faces Hrange))
    as (r & Hr & Hsum); [rewrite length_map; lia|].
  rewrite length_map in Hr. cbn [Nat.add] in Hr. rewrite Hr.
  exists (Qabs r). split; [reflexivity|].
  rewrite Hsum. apply Qabs_wd. lra.
Qed.

(** Every position buffer whose length is a multiple of three is a
    triangle soup, and every such index buffer lists faces. *)
Lemma soup_positions_onto (k : nat) : forall pos : list Vector3,
  length pos = (3 * k)%nat -> exists fs, pos = soup_positions fs.
Proof.
  induction k as [|k IH]; intros pos Hlen.
  - destruct pos; [exists []; reflexivity | discriminate].
  - destruct pos as [|a [|b [|c pos]]]; cbn [length] in Hlen; try lia.
    destruct (IH pos) as [fs ->]; [lia|].
    exists ((a, b, c) :: fs). reflexivity.
Qed.

Lemma face_indices_onto (k : nat) : forall idx : list nat,
  length idx = (3 * k)%nat -> exists faces, idx = face_indices faces.
Proof.
  induction k as [|k IH]; intros idx Hlen.
  - destruct idx; [exists []; reflexivity | discriminate].
  - destruct idx as [|a [|b [|c idx]]]; cbn [length] in Hlen; try lia.
    destruct (IH idx) as [faces ->]; [lia|].
    exists ((a, b, c) :: faces). reflexivity.
Qed.

(** A model made of a single mesh: the reported volume is that mesh's. *)
Lemma volume_cm3_of_single g r :
  calculateVolume g = Js.Fin r ->
  volume_cm3_of [g] = Js.Fin ((0 + r) / 1000).
Proof.
  intros H. unfold volume_cm3_of, totalVolumeMm3. simpl. rewrite H. reflexivity.
Qed.

Example tetra_volume_cm3 :
  volume_cm3_of [indexed_geometry tetra_pool tetra_faces] =js= Js.Fin (1 # 6).
Proof. vm_compute. reflexivity. Qed.

Example tetra_soup_volume_cm3 :
  volume_cm3_of [soup_geometry tetra_facets] =js= Js.Fin (1 # 6).
Proof. vm_compute. reflexivity. Qed.

(** Each mesh of a model contributes the absolute value of its own signed
    sum: the tetrahedron and its inside-out copy add up, they do not
    cancel. *)
Example two_mesh_volume_cm3 :
  volume_cm3_of [indexed_geometry tetra_pool tetra_faces;
                 indexed_geometry tetra_pool
                   (map (fun f => let '(i, j, k) := f in (i, k, j)) tetra_faces)]
  =js= Js.Fin (2 # 6).
Proof. vm_compute. reflexivity. Qed.

(** A position count that is not a multiple of three makes the last
    iteration read past the buffer: the volume is NaN. *)
Example dangling_vertex_volume :
  volume_cm3_of [mkGeometry true (soup_positions tetra_facets ++ [origin]) None]
  = Js.NaN.
Proof. vm_compute. reflexivity. Qed.

(** C1. For a triangle mesh given as consecutive position triples, and for
    an indexed one whose indices lie in the vertex pool, the reported
    [volume_cm3] is the absolute value of the sum over all facets
    (p1,p2,p3) of p1 . (p2 x p3) / 6, divided by 1000; a mesh with no
    facets has volume 0. *)
Theorem C1_volume_is_abs_signed_sum (fs : list Triangle)
  (pool : list Vector3) (faces : list Face) :
  faces_in_range pool faces = true ->
  volume_cm3_of [soup_geometry fs]
    =js= Js.Fin (Qabs (sum_facet_volumes fs) / 1000)
  /\ volume_cm3_of [indexed_geometry pool faces]
    =js= Js.Fin (Qabs (sum_facet_volumes (map (face_triangle pool) faces)) / 1000)
  /\ volume_cm3_of [soup_geometry []] =js= Js.Fin 0
  /\ volume_cm3_of [indexed_geometry pool []] =js= Js.Fin 0.
Proof.
  intros Hrange. split; [|split; [|split]].
  - destruct (calculateVolume_soup fs) as (r & Hr & Hsum).
    rewrite (volume_cm3_of_single _ _ Hr). simpl. rewrite Hsum. field.
  - destruct (calculateVolume_indexed pool faces Hrange) as (r & Hr & Hsum).
    rewrite (volume_cm3_of_single _ _ Hr). simpl. rewrite Hsum. field.
  - vm_compute. reflexivity.
  - vm_compute. reflexivity.
Qed.

Lemma C1_volume_witness :
  faces_in_range tetra_pool tetra_faces = true
  /\ volume_cm3_of [indexed_geometry tetra_pool tetra_faces]
     =js= Js.Fin (Qabs (sum_facet_volumes tetra_facets) / 1000).
Proof.
  split; [reflexivity|].
  exact (proj1 (proj2 (C1_volume_is_abs_signed_sum
                         tetra_facets tetra_pool tetra_faces eq_refl))).
Defined.

(** ** Translation invariance of the volume *)

Lemma Q_eq_dec (x y : Q) : {x = y} + {x <> y}.
Proof. decide equality; [apply Pos.eq_dec | apply Z.eq_dec]. Defined.

Lemma Vector3_eq_dec (a b : Vector3) : {a = b} + {a <> b}.
Proof. decide equality; apply Q_eq_dec. Defined.

Lemma Edge_eq_dec (e e' : Edge) : {e = e'} + {e <> e'}.
Proof. decide equality; apply Vector3_eq_dec. Defined.

Lemma Qred_eq_iff (x y : Q) : Qred x = Qred y <-> x == y.
Proof.
  split; [|apply Qred_complete].
  intros H. rewrite <- (Qred_correct x), <- (Qred_correct y), H. reflexivity.
Qed.

Lemma vector_eqb_key a b : vector_eqb a b = true <-> vector_key a = vector_key b.
Proof.
  unfold vector_eqb, vector_key. rewrite !andb_true_iff, !Qeq_bool_iff.
  rewrite <- !Qred_eq_iff. split.
  - intros [[-> ->] ->]. reflexivity.
  - intros H. injection H as -> -> ->. auto.
Qed.

Lemma edge_eqb_key e e' : edge_eqb e e' = true <-> edge_key e = edge_key e'.
Proof.
  unfold edge_eqb, edge_key. rewrite andb_true_iff, !vector_eqb_key. split.
  - intros [-> ->]. reflexivity.
  - intros H. apply pair_equal_spec in H. exact H.
Qed.

Lemma count_edge_keys e es :
  count_edge e es = count_occ Edge_eq_dec (map edge_key es) (edge_key e).
Proof.
  unfold count_edge. induction es as [|e' es IH]; [reflexivity|].
  cbn [filter map count_occ].
  destruct (edge_eqb e e') eqn:E.
  - apply edge_eqb_key in E.
    destruct (Edge_eq_dec (edge_key e') (edge_key e)) as [_|N];
      [|congruence].
    cbn [length]. rewrite IH. reflexivity.
  - destruct (Edge_eq_dec (edge_key e') (edge_key e)) as [Y|_]; [|exact IH].
    symmetry in Y. apply edge_eqb_key in Y. congruence.
Qed.

Lemma reverse_edge_key e : edge_key (reverse_edge e) = reverse_edge (edge_key e).
Proof. reflexivity. Qed.

Lemma reverse_edge_involutive e : reverse_edge (reverse_edge e) = e.
Proof. destruct e; reflexivity. Qed.

Lemma reverse_edge_injective e e' : reverse_edge e = reverse_edge e' -> e = e'.
Proof.
  intros H. rewrite <- (reverse_edge_involutive e), H.
  apply reverse_edge_involutive.
Qed.

(** In a closed mesh the edge keys and the reversed edge keys are the same
    multiset. *)
Lemma closed_keys_balanced es :
  forallb (fun e => (count_edge e es =? count_edge (reverse_edge e) es)%nat) es
    = true ->
  forall k, count_occ Edge_eq_dec (map edge_key es) k
            = count_occ Edge_eq_dec (map edge_key es) (reverse_edge k).
Proof.
  intros Hclosed.
  assert (Hin : forall k, In k (map edge_key es) ->
            count_occ Edge_eq_dec (map edge_key es) k
            = count_occ Edge_eq_dec (map edge_key es) (reverse_edge k)).
  { intros k Hk. apply in_map_iff in Hk as (e & <- & He).
    rewrite forallb_forall in Hclosed. specialize (Hclosed e He).
    apply Nat.eqb_eq in Hclosed.
    rewrite <- reverse_edge_key, <- !count_edge_keys. exact Hclosed. }
  intros k.
  destruct (in_dec Edge_eq_dec k (map edge_key es)) as [Hk|Hk]; [auto|].
  destruct (in_dec Edge_eq_dec (reverse_edge k) (map edge_key es)) as [Hr|Hr].
  - exfalso. specialize (Hin _ Hr). rewrite reverse_edge_involutive in Hin.
    apply (count_occ_In Edge_eq_dec) in Hr.
    apply (count_occ_not_In Edge_eq_dec) in Hk. lia.
  - apply (count_occ_not_In Edge_eq_dec) in Hk, Hr. congruence.
Qed.

Lemma closed_keys_permutation es :
  forallb (fun e => (count_edge e es =? count_edge (reverse_edge e) es)%nat) es
    = true ->
  Permutation (map edge_key es) (map reverse_edge (map edge_key es)).
Proof.
  intros Hclosed. apply (Permutation_count_occ Edge_eq_dec). intros k.
  rewrite (closed_keys_balanced es Hclosed k).
  rewrite <- (reverse_edge_involutive k) at 2.
  apply (count_occ_map reverse_edge Edge_eq_dec Edge_eq_dec).
  intros x y. apply reverse_edge_injective.
Qed.

Lemma edge_sum_permutation g es es' :
  Permutation es es' -> edge_sum g es == edge_sum g es'.
Proof.
  induction 1; cbn [edge_sum]; try lra.
Qed.

Lemma edge_sum_map g f es : edge_sum g (map f es) = edge_sum (fun e => g (f e)) es.
Proof.
  induction es as [|e es IH]; cbn [map edge_sum]; [reflexivity|].
  rewrite IH. reflexivity.
Qed.

Lemma edge_sum_ext g h es :
  (forall e, g e == h e) -> edge_sum g es == edge_sum h es.
Proof.
  intros H. induction es as [|e es IH]; cbn [edge_sum]; [reflexivity|].
  rewrite IH, (H e). reflexivity.
Qed.

Lemma edge_sum_opp g es : edge_sum (fun e => - g e) es == - edge_sum g es.
Proof.
  induction es as [|e es IH]; cbn [edge_sum]; [reflexivity|].
  rewrite IH. ring.
Qed.

Lemma edge_term_key t e : edge_term t (edge_key e) == edge_term t e.
Proof.
  destruct e as [a b]. unfold edge_term, edge_key, vector_key, dot, cross.
  cbn [fst snd vx vy vz]. rewrite !Qred_correct. reflexivity.
Qed.

Lemma edge_term_reverse t e : edge_term t (reverse_edge e) == - edge_term t e.
Proof.
  destruct e as [a b]. unfold edge_term, reverse_edge, dot, cross.
  cbn [fst snd vx vy vz]. ring.
Qed.

(** The translation terms of a closed mesh cancel. *)
Lemma closed_edge_sum_zero t fs :
  closed_mesh fs = true -> edge_sum (edge_term t) (mesh_edges fs) == 0.
Proof.
  unfold closed_mesh. cbv zeta. intros Hclosed.
  set (es := mesh_edges fs) in *.
  assert (Hkeys : edge_sum (edge_term t) (map edge_key es)
                  == edge_sum (edge_term t) es).
  { rewrite edge_sum_map. apply edge_sum_ext. intros e. apply edge_term_key. }
  assert (Hrev : edge_sum (edge_term t) (map edge_key es)
                 == - edge_sum (edge_term t) (map edge_key es)).
  { rewrite (edge_sum_permutation _ _ _ (closed_keys_permutation es Hclosed))
      at 1.
    rewrite edge_sum_map, <- edge_sum_opp.
    apply edge_sum_ext. intros e. apply edge_term_reverse. }
  lra.
Qed.

Lemma facet_volume_translate t f :
  facet_volume (translate_triangle t f)
  == facet_volume f + edge_sum (edge_term t) (facet_edges f) / 6.
Proof.
  destruct f as [[a b] c].
  unfold facet_volume, translate_triangle, signedVolumeOfTriangle, facet_edges,
    edge_term, dot, cross, vadd.
  cbn [edge_sum fst snd vx vy vz]. field.
Qed.

Lemma edge_sum_app g es es' :
  edge_sum g (es ++ es') == edge_sum g es + edge_sum g es'.
Proof.
  induction es as [|e es IH]; cbn [app edge_sum]; [ring|].
  rewrite IH. ring.
Qed.

Lemma sum_facet_volumes_translate t fs :
  sum_facet_volumes (map (translate_triangle t) fs)
  == sum_facet_volumes fs + edge_sum (edge_term t) (mesh_edges fs) / 6.
Proof.
  induction fs as [|f fs IH]; cbn [map sum_facet_volumes].
  - cbn. reflexivity.
  - change (mesh_edges (f :: fs)) with (facet_edges f ++ mesh_edges fs).
    rewrite edge_sum_app, IH, facet_volume_translate. field.
Qed.

Lemma closed_sum_translate t fs :
  closed_mesh fs = true ->
  sum_facet_volumes (map (translate_triangle t) fs) == sum_facet_volumes fs.
Proof.
  intros Hclosed.
  rewrite sum_facet_volumes_translate, (closed_edge_sum_zero t fs Hclosed).
  field.
Qed.

Lemma translate_soup t fs :
  translate t (soup_geometry fs) = soup_geometry (map (translate_triangle t) fs).
Proof.
  unfold translate, soup_geometry. cbn [isBufferGeometry position index].
  f_equal. induction fs as [|[[a b] c] fs IH]; [reflexivity|].
  change (soup_positions (((a, b), c) :: fs))
    with (a :: b :: c :: soup_positions fs).
  cbn [map]. rewrite IH. reflexivity.
Qed.

Lemma translate_indexed t pool faces :
  translate t (indexed_geometry pool faces)
  = indexed_geometry (map (vadd t) pool) faces.
Proof. reflexivity. Qed.

Lemma faces_in_range_map t pool faces :
  faces_in_range (map (vadd t) pool) faces = faces_in_range pool faces.
Proof.
  unfold faces_in_range, face_in_range. rewrite length_map. reflexivity.
Qed.

Lemma face_triangle_translate t pool faces :
  faces_in_range pool faces = true ->
  map (face_triangle (map (vadd t) pool)) faces
  = map (translate_triangle t) (map (face_triangle pool) faces).
Proof.
  intros Hrange. rewrite map_map. apply map_ext_in. intros [[i j] k] Hf.
  unfold faces_in_range in Hrange. rewrite forallb_forall in Hrange.
  specialize (Hrange _ Hf). cbn [face_in_range] in Hrange.
  apply andb_prop in Hrange as [Hij Hk]. apply andb_prop in Hij as [Hi Hj].
  apply Nat.ltb_lt in Hi, Hj, Hk.
  cbn [face_triangle translate_triangle].
  rewrite !(nth_indep (map (vadd t) pool) origin (vadd t origin))
    by (rewrite length_map; assumption).
  rewrite !map_nth. reflexivity.
Qed.

(** C7. Moving a closed, consistently wound mesh by any vector leaves the
    computed volume unchanged, for a triangle soup and for an indexed
    mesh alike. *)
Theorem C7_volume_translation_invariant (t : Vector3) (fs : list Triangle)
  (pool : list Vector3) (faces : list Face) :
  closed_mesh fs = true ->
  faces_in_range pool faces = true ->
  closed_mesh (map (face_triangle pool) faces) = true ->
  volume_cm3_of [translate t (soup_geometry fs)]
    =js= volume_cm3_of [soup_geometry fs]
  /\ volume_cm3_of [translate t (indexed_geometry pool faces)]
    =js= volume_cm3_of [indexed_geometry pool faces].
Proof.
  intros Hsoup Hrange Hindexed. split.
  - rewrite translate_soup.
    destruct (calculateVolume_soup fs) as (r & Hr & Hsum).
    destruct (calculateVolume_soup (map (translate_triangle t) fs))
      as (r' & Hr' & Hsum').
    rewrite (volume_cm3_of_single _ _ Hr), (volume_cm3_of_single _ _ Hr').
    cbn [Js.eq]. rewrite Hsum, Hsum', (closed_sum_translate t fs Hsoup).
    reflexivity.
  - rewrite translate_indexed.
    destruct (calculateVolume_indexed pool faces Hrange) as (r & Hr & Hsum).
    destruct (calculateVolume_indexed (map (vadd t) pool) faces)
      as (r' & Hr' & Hsum').
    { rewrite faces_in_range_map. exact Hrange. }
    rewrite (volume_cm3_of_single _ _ Hr), (volume_cm3_of_single _ _ Hr').
    cbn [Js.eq]. rewrite Hsum, Hsum'.
    rewrite (face_triangle_translate t pool faces Hrange).
    rewrite (closed_sum_translate t _ Hindexed). reflexivity.
Qed.

Lemma C7_translation_witness :
  closed_mesh tetra_facets = true
  /\ faces_in_range tetra_pool tetra_faces = true
  /\ volume_cm3_of [translate (vec3 3 (-4) (7 # 2)) (soup_geometry tetra_facets)]
       =js= volume_cm3_of [soup_geometry tetra_facets]
  /\ volume_cm3_of [translate (vec3 3 (-4) (7 # 2))
                      (indexed_geometry tetra_pool tetra_faces)]
       =js= volume_cm3_of [indexed_geometry tetra_pool tetra_faces].
Proof.
  split; [reflexivity|]. split; [reflexivity|].
  exact (C7_volume_translation_invariant (vec3 3 (-4) (7 # 2)) tetra_facets
           tetra_pool tetra_faces eq_refl eq_refl eq_refl).
Defined.

(** An open mesh (one facet of the tetrahedron removed) does change its
    computed volume when it is moved. *)
Example open_mesh_volume_moves :
  closed_mesh (tl tetra_facets) = false
  /\ ~ (volume_cm3_of [translate (vec3 0 0 5) (soup_geometry (tl tetra_facets))]
        =js= volume_cm3_of [soup_geometry (tl tetra_facets)]).
Proof. split; [reflexivity|]. vm_compute. discriminate. Qed.

(** ** The print simulator: missing geometry *)

Lemma truthy_number_false_iff (x : option Js.num) :
  truthy_number x = false
  <-> x = None \/ x = Some Js.NaN
      \/ exists q, x = Some (Js.Fin q) /\ q == 0.
Proof.
  destruct x as [[q|]|]; cbn [truthy_number].
  - rewrite negb_false_iff, Qeq_bool_iff. split.
    + intros H. right. right. exists q. auto.
    + intros [H|[H|(q' & H & Hq)]]; try discriminate.
      injection H as ->. exact Hq.
  - split; auto.
  - split; auto.
Qed.

Lemma calculateQuoteLocally_cases v m n l i w s sp :
  (truthy_number (volume_cm3 v) = false \/ dimensions_mm v = None)
  /\ calculateQuoteLocally v m n l i w s sp = Thrown missing_geometry
  \/ exists vol dims,
       volume_cm3 v = Some (Js.Fin vol) /\ ~ vol == 0
       /\ dimensions_mm v = Some dims
       /\ calculateQuoteLocally v m n l i w s sp
          = Returned (Sim.result dims vol m n l i w s sp).
Proof.
  unfold calculateQuoteLocally.
  destruct (volume_cm3 v) as [[vol|]|];
    [| left; split; [left|]; reflexivity | left; split; [left|]; reflexivity].
  destruct (dimensions_mm v) as [dims|].
  - cbn [truthy_number present]. destruct (Qeq_bool vol 0) eqn:E;
      cbn [negb orb].
    + left. split; [left|]; reflexivity.
    + right. exists vol, dims. repeat split.
      intros Hz. apply Qeq_bool_iff in Hz. congruence.
  - left. split; [right; reflexivity|].
    cbn [present negb]. rewrite orb_true_r. reflexivity.
Qed.

Lemma calculateQuoteLocally_thrown v m n l i w s sp message :
  calculateQuoteLocally v m n l i w s sp = Thrown message ->
  message = missing_geometry.
Proof.
  destruct (calculateQuoteLocally_cases v m n l i w s sp)
    as [[_ ->] | (vol & dims & _ & _ & _ & ->)]; [|discriminate].
  intros H. injection H as <-. reflexivity.
Qed.

(** The volume the analyzer reports for a position array with a dangling
    vertex is NaN; stored in the validation result as it is, it counts as
    missing geometry although the field is present. *)
Example NaN_volume_is_missing :
  let measured :=
    volume_cm3_of
      [mkGeometry true (soup_positions tetra_facets ++ [origin]) None] in
  measured = Js.NaN
  /\ volume_cm3 (finalResult cube measured cube_dims) = Some Js.NaN
  /\ calculateQuoteLocally (finalResult cube measured cube_dims) pla (4 # 10)
       (2 # 10) 20 2 default_settings 0 = Thrown missing_geometry.
Proof. cbv zeta. split; [|split]; vm_compute; reflexivity. Qed.

(** C2 (as the code has it). The simulator throws the missing-geometry
    error exactly when the volume is absent, NaN or zero, or the
    dimensions are absent.  Otherwise it returns the full result computed
    from the volume and the dimensions it was given: nothing is defaulted,
    and a failing call yields the error alone. *)
Theorem C2_missing_geometry_iff (v : ValidationResult) (m : Material)
  (n l i w : Q) (s : Settings) (sp : Q) :
  (calculateQuoteLocally v m n l i w s sp = Thrown missing_geometry
   <-> volume_cm3 v = None
       \/ volume_cm3 v = Some Js.NaN
       \/ (exists q, volume_cm3 v = Some (Js.Fin q) /\ q == 0)
       \/ dimensions_mm v = None)
  /\ (forall r, calculateQuoteLocally v m n l i w s sp = Returned r ->
        exists vol dims,
          volume_cm3 v = Some (Js.Fin vol) /\ dimensions_mm v = Some dims
          /\ r = Sim.result dims vol m n l i w s sp)
  /\ (forall message, calculateQuoteLocally v m n l i w s sp = Thrown message ->
        message = missing_geometry).
Proof.
  destruct (calculateQuoteLocally_cases v m n l i w s sp)
    as [[Hfalsy Hthrown] | (vol & dims & Hvol & Hnz & Hdims & Hret)].
  - rewrite Hthrown. split; [|split].
    + split; [intros _|reflexivity].
      destruct Hfalsy as [H|H]; [|auto].
      apply truthy_number_false_iff in H. tauto.
    + discriminate.
    + intros message H. injection H as <-. reflexivity.
  - rewrite Hret. split; [|split].
    + split; [discriminate|].
      intros [H|[H|[(q & H & Hq)|H]]]; [congruence|congruence| |congruence].
      rewrite Hvol in H. injection H as <-. contradiction.
    + intros r H. injection H as <-. exists vol, dims. auto.
    + discriminate.
Qed.

(** C2, counterexample: the cube with a volume of zero has both its volume
    and its dimensions present, yet the simulator throws. *)
Lemma C2_zero_volume_counterexample :
  ~ (calculateQuoteLocally (with_volume cube (Some (Js.Fin 0))) pla (4 # 10)
       (2 # 10) 20 2 default_settings 0 = Thrown missing_geometry
     <-> volume_cm3 (with_volume cube (Some (Js.Fin 0))) = None
         \/ dimensions_mm (with_volume cube (Some (Js.Fin 0))) = None).
Proof.
  intros [H _]. destruct (H eq_refl) as [H'|H']; discriminate.
Qed.

(** C10. A volume of exactly zero, dimensions present or not, gets the
    same missing-geometry error as an absent volume. *)
Theorem C10_zero_volume_is_missing (v : ValidationResult) (q : Q)
  (m : Material) (n l i w : Q) (s : Settings) (sp : Q) :
  volume_cm3 v = Some (Js.Fin q) -> q == 0 ->
  calculateQuoteLocally v m n l i w s sp = Thrown missing_geometry
  /\ calculateQuoteLocally v m n l i w s sp
     = calculateQuoteLocally (with_volume v None) m n l i w s sp.
Proof.
  intros Hvol Hq. unfold calculateQuoteLocally. rewrite Hvol.
  cbn [with_volume volume_cm3 truthy_number negb orb].
  apply Qeq_bool_iff in Hq. rewrite Hq. split; reflexivity.
Qed.

Lemma C10_zero_volume_witness :
  volume_cm3 (with_volume cube (Some (Js.Fin 0))) = Some (Js.Fin 0) /\ 0 == 0
  /\ calculateQuoteLocally (with_volume cube (Some (Js.Fin 0))) pla (4 # 10)
       (2 # 10) 20 2 default_settings 0 = Thrown missing_geometry.
Proof.
  split; [reflexivity|]. split; [reflexivity|].
  exact (proj1 (C10_zero_volume_is_missing (with_volume cube (Some (Js.Fin 0)))
                  0 pla (4 # 10) (2 # 10) 20 2 default_settings 0
                  eq_refl (Qeq_refl 0))).
Defined.

(** ** The flow-limited speed factor *)

Lemma Qlt_bool_iff (x y : Q) : Qlt_bool x y = true <-> x < y.
Proof.
  unfold Qlt_bool. rewrite negb_true_iff, <- not_true_iff_false, Qle_bool_iff.
  split; [apply Qnot_le_lt | apply Qlt_not_le].
Qed.

Lemma Qlt_bool_false_iff (x y : Q) : Qlt_bool x y = false <-> y <= x.
Proof.
  unfold Qlt_bool. rewrite negb_false_iff. apply Qle_bool_iff.
Qed.

Lemma Qdiv_pos (a b : Q) : 0 < a -> 0 < b -> 0 < a / b.
Proof.
  intros Ha Hb. unfold Qdiv.
  apply Qmult_lt_0_compat; [assumption | apply Qinv_lt_0_compat; assumption].
Qed.

Lemma Qdiv_nonneg (a b : Q) : 0 <= a -> 0 < b -> 0 <= a / b.
Proof.
  intros Ha Hb. unfold Qdiv.
  apply Qmult_le_0_compat; [assumption|].
  apply Qlt_le_weak, Qinv_lt_0_compat. assumption.
Qed.

Lemma Qdiv_lt_1 (a b : Q) : 0 < b -> a < b -> a / b < 1.
Proof.
  intros Hb Hab. apply Qlt_shift_div_r; [assumption|]. lra.
Qed.

(** The three ways the factor is decided. *)
Lemma speedScalingFactor_cases (m : Material) (n l : Q) (s : Settings) :
  let theo := Sim.theoreticalFlowRate n l s in
  (max_flow_rate_mm3_s m = None /\ Sim.speedScalingFactor m n l s = 1)
  \/ (exists rate, max_flow_rate_mm3_s m = Some rate
        /\ (rate == 0 \/ theo <= rate)
        /\ Sim.speedScalingFactor m n l s = 1)
  \/ (exists rate, max_flow_rate_mm3_s m = Some rate
        /\ ~ rate == 0 /\ rate < theo
        /\ Sim.speedScalingFactor m n l s = rate / theo).
Proof.
  intros theo. unfold Sim.speedScalingFactor.
  destruct (max_flow_rate_mm3_s m) as [rate|]; [|left; auto].
  right. cbn [truthy]. destruct (Qeq_bool rate 0) eqn:Ez; cbn [negb].
  - left. exists rate. apply Qeq_bool_iff in Ez. auto.
  - fold theo. destruct (Qlt_bool rate theo) eqn:Elt.
    + right. exists rate. apply Qlt_bool_iff in Elt. repeat split; auto.
      intros Hz. apply Qeq_bool_iff in Hz. congruence.
    + left. exists rate. apply Qlt_bool_false_iff in Elt. auto.
Qed.

Lemma speedScalingFactor_range (m : Material) (n l : Q) (s : Settings) :
  (forall rate, max_flow_rate_mm3_s m = Some rate -> 0 <= rate) ->
  0 < Sim.speedScalingFactor m n l s <= 1.
Proof.
  intros Hrate.
  destruct (speedScalingFactor_cases m n l s)
    as [[_ ->] | [(rate & _ & _ & ->) | (rate & Hm & Hnz & Hlt & ->)]];
    try lra.
  specialize (Hrate rate Hm).
  assert (0 < rate) by (destruct (Qle_lt_or_eq _ _ Hrate) as [H|H];
                        [exact H | symmetry in H; contradiction]).
  assert (0 < Sim.theoreticalFlowRate n l s) by lra.
  split; [apply Qdiv_pos; assumption|].
  apply Qlt_le_weak, Qdiv_lt_1; assumption.
Qed.

(** C5 (as the code has it). A maximum flow rate of exactly zero raises no
    error: the simulator treats it as an absent one, with a speed scaling
    factor of 1 and the same outcome in every respect. *)
Theorem C5_zero_flow_rate_is_absent (v : ValidationResult) (m : Material)
  (rate : Q) (n l i w : Q) (s : Settings) (sp : Q) :
  max_flow_rate_mm3_s m = Some rate -> rate == 0 ->
  Sim.speedScalingFactor m n l s = 1
  /\ calculateQuoteLocally v m n l i w s sp
     = calculateQuoteLocally v (with_max_flow_rate m None) n l i w s sp
  /\ forall message, calculateQuoteLocally v m n l i w s sp = Thrown message ->
       message = missing_geometry.
Proof.
  intros Hm Hz.
  assert (Hf : Sim.speedScalingFactor m n l s = 1).
  { unfold Sim.speedScalingFactor. rewrite Hm. cbn [truthy].
    apply Qeq_bool_iff in Hz. rewrite Hz. reflexivity. }
  split; [exact Hf|]. split.
  - unfold calculateQuoteLocally.
    destruct (negb (truthy_number (volume_cm3 v))
              || negb (present (dimensions_mm v)));
      [reflexivity|].
    destruct (volume_cm3 v) as [[vol|]|]; [|reflexivity|reflexivity].
    destruct (dimensions_mm v) as [dims|]; [|reflexivity].
    f_equal. unfold Sim.result, Sim.time_hours, Sim.final_time_s,
      Sim.base_time_s, Sim.time_support_s, Sim.total_print_time_s,
      Sim.time_walls_s, Sim.time_infill_s, Sim.time_top_bottom_s,
      Sim.effective_speed_wall_mm_s, Sim.effective_speed_infill_mm_s,
      Sim.effective_speed_top_bottom_mm_s.
    rewrite Hf. reflexivity.
  - apply calculateQuoteLocally_thrown.
Qed.

Lemma C5_zero_flow_rate_witness :
  max_flow_rate_mm3_s (with_max_flow_rate pla (Some 0)) = Some 0 /\ 0 == 0
  /\ Sim.speedScalingFactor (with_max_flow_rate pla (Some 0)) (4 # 10) (2 # 10)
       default_settings = 1.
Proof.
  split; [reflexivity|]. split; [reflexivity|].
  exact (proj1 (C5_zero_flow_rate_is_absent cube
                  (with_max_flow_rate pla (Some 0)) 0 (4 # 10) (2 # 10) 20 2
                  default_settings 0 eq_refl (Qeq_refl 0))).
Defined.

(** C5, counterexample: PLA with its maximum flow rate set to zero, on the
    100 mm cube.  The simulator returns a quote, with factor 1, where the
    claim wants an invalid-configuration error. *)
Lemma C5_zero_flow_rate_counterexample :
  (forall message,
     calculateQuoteLocally cube (with_max_flow_rate pla (Some 0)) (4 # 10)
       (2 # 10) 20 2 default_settings 0 <> Thrown message)
  /\ exists r,
       calculateQuoteLocally cube (with_max_flow_rate pla (Some 0)) (4 # 10)
         (2 # 10) 20 2 default_settings 0 = Returned r
       /\ speedScalingFactor r = 1.
Proof.
  split; [intros message; discriminate|].
  eexists. split; reflexivity.
Qed.

(** C4 (as the code has it). With line width d x 1.2 and theoretical rate
    h x (d x 1.2) x s: the factor is max_flow_rate / theoretical when the
    material has a non-zero maximum flow rate that the theoretical rate
    exceeds (below 1 when that maximum is positive), and 1 otherwise, a
    zero maximum counting as absent; it lies in (0, 1] whenever the
    maximum is absent or not negative; the wall, infill and top/bottom
    speeds are multiplied by it and the travel time uses the configured
    travel speed as it is. *)
Theorem C4_flow_limited_factor (m : Material) (d h : Q) (s : Settings)
  (dims : Dimensions) :
  let theoretical := h * (d * (12 # 10)) * speed_infill_mm_s s in
  let factor := Sim.speedScalingFactor m d h s in
  (forall rate, max_flow_rate_mm3_s m = Some rate -> ~ rate == 0 ->
     rate < theoretical ->
     factor == rate / theoretical /\ (0 < rate -> factor < 1))
  /\ (max_flow_rate_mm3_s m = None -> factor == 1)
  /\ (forall rate, max_flow_rate_mm3_s m = Some rate ->
        rate == 0 \/ theoretical <= rate -> factor == 1)
  /\ ((forall rate, max_flow_rate_mm3_s m = Some rate -> 0 <= rate) ->
        0 < factor <= 1)
  /\ Sim.effective_speed_wall_mm_s m d h s == speed_wall_mm_s s * factor
  /\ Sim.effective_speed_infill_mm_s m d h s == speed_infill_mm_s s * factor
  /\ Sim.effective_speed_top_bottom_mm_s m d h s
       == speed_top_bottom_mm_s s * factor
  /\ Sim.time_travel_s dims h s
       == (dim_z dims / h) * ((dim_x dims + dim_y dims) * (1 # 2))
          / speed_travel_mm_s s.
Proof.
  intros theoretical factor.
  assert (Htheo : Sim.theoreticalFlowRate d h s = theoretical) by reflexivity.
  pose proof (speedScalingFactor_cases m d h s) as Hcases.
  cbv zeta in Hcases. rewrite Htheo in Hcases. fold factor in Hcases.
  split; [|split; [|split; [|split]]].
  - intros rate Hm Hnz Hlt.
    destruct Hcases as [[Hn _] | [(r & Hr & Hside & _) | (r & Hr & _ & _ & ->)]].
    + congruence.
    + rewrite Hm in Hr. injection Hr as <-. destruct Hside; [contradiction|lra].
    + rewrite Hm in Hr. injection Hr as <-. split; [reflexivity|].
      intros Hpos. apply Qdiv_lt_1; lra.
  - intros Hn.
    destruct Hcases as [[_ ->] | [(r & Hr & _) | (r & Hr & _)]];
      [reflexivity | congruence | congruence].
  - intros rate Hm Hside.
    destruct Hcases as [[Hn _] | [(r & _ & _ & ->) | (r & Hr & Hnz & Hlt & _)]].
    + congruence.
    + reflexivity.
    + rewrite Hm in Hr. injection Hr as <-. destruct Hside; [contradiction|lra].
  - apply speedScalingFactor_range.
  - repeat split; reflexivity.
Qed.

(** The fastest default profile on PLA: 0.6 mm nozzle, 0.36 mm layers.
    The theoretical rate is 25.92 mm3/s against a maximum of 20. *)
Lemma C4_flow_limited_witness :
  max_flow_rate_mm3_s pla = Some 20 /\ ~ 20 == 0
  /\ 20 < (36 # 100) * ((6 # 10) * (12 # 10)) * speed_infill_mm_s default_settings
  /\ Sim.speedScalingFactor pla (6 # 10) (36 # 100) default_settings
     == 20 / ((36 # 100) * ((6 # 10) * (12 # 10))
              * speed_infill_mm_s default_settings).
Proof.
  split; [reflexivity|]. split; [discriminate|]. split; [reflexivity|].
  refine (proj1 (proj1 (C4_flow_limited_factor pla (6 # 10) (36 # 100)
                          default_settings cube_dims) 20 eq_refl _ _)).
  - discriminate.
  - reflexivity.
Defined.

(** A negative maximum flow rate is not guarded against: the factor
    leaves (0, 1]. *)
Example negative_flow_rate_factor :
  Sim.speedScalingFactor (with_max_flow_rate pla (Some (- (48 # 10))))
    (4 # 10) (2 # 10) default_settings == - (1 # 2).
Proof. vm_compute. reflexivity. Qed.

(** C4, counterexample: a maximum flow rate of zero is specified and the
    theoretical rate (9.6 mm3/s) exceeds it, yet the factor is 1, not
    0 / 9.6, and the claimed value would not lie in (0, 1] either. *)
Lemma C4_zero_flow_rate_counterexample :
  max_flow_rate_mm3_s (with_max_flow_rate pla (Some 0)) = Some 0
  /\ 0 < (2 # 10) * ((4 # 10) * (12 # 10)) * speed_infill_mm_s default_settings
  /\ ~ Sim.speedScalingFactor (with_max_flow_rate pla (Some 0)) (4 # 10)
         (2 # 10) default_settings
       == 0 / ((2 # 10) * ((4 # 10) * (12 # 10))
               * speed_infill_mm_s default_settings).
Proof.
  split; [reflexivity|]. split; [reflexivity|].
  vm_compute. discriminate.
Qed.

(** ** Support overhead *)

Lemma Qceiling_nonneg (x : Q) : 0 <= x -> 0 <= inject_Z (Qceiling x).
Proof.
  intros Hx. apply Qle_trans with x; [exact Hx | apply Qle_ceiling].
Qed.

Section SupportOverhead.

Variables (dims : Dimensions) (vol : Q) (m : Material).
Variables (n l i w : Q) (s : Settings).

Hypothesis Hvol : 0 < vol.
Hypothesis Hx : 0 < dim_x dims.
Hypothesis Hy : 0 < dim_y dims.
Hypothesis Hz : 0 < dim_z dims.
Hypothesis Hn : 0 < n.
Hypothesis Hl : 0 < l.
Hypothesis Hi : 0 <= i.
Hypothesis Hw : 0 < w.
Hypothesis Hwall : 0 < speed_wall_mm_s s.
Hypothesis Hinfill : 0 < speed_infill_mm_s s.
Hypothesis Htop : 0 < speed_top_bottom_mm_s s.
Hypothesis Hflow : forall rate, max_flow_rate_mm3_s m = Some rate -> 0 <= rate.

Let factor_pos : 0 < Sim.speedScalingFactor m n l s.
Proof. apply speedScalingFactor_range. exact Hflow. Qed.

Let line_width_pos : 0 < Sim.line_width_mm n.
Proof. unfold Sim.line_width_mm. apply Qmult_lt_0_compat; lra. Qed.

Let num_layers_pos : 0 < Sim.num_layers dims l.
Proof. apply Qdiv_pos; assumption. Qed.

Let layer_area_pos : 0 < Sim.avg_layer_area_mm2 dims vol.
Proof. apply Qdiv_pos; [lra | assumption]. Qed.

Let wall_path_pos : 0 < Sim.wall_path_length_per_layer_mm dims w.
Proof.
  unfold Sim.wall_path_length_per_layer_mm, Sim.avg_perimeter_mm.
  apply Qmult_lt_0_compat; [lra | assumption].
Qed.

Let infill_path_nonneg : 0 <= Sim.infill_path_length_per_layer_mm dims vol n i w.
Proof.
  unfold Sim.infill_path_length_per_layer_mm, Sim.infill_area_per_layer_mm2.
  apply Qdiv_nonneg; [|exact line_width_pos].
  apply Qmult_le_0_compat; [apply Q.le_max_l|].
  apply Qdiv_nonneg; [assumption | reflexivity].
Qed.

Let solid_path_pos : 0 < Sim.solid_layer_path_length_mm dims vol n.
Proof. apply Qdiv_pos; [exact layer_area_pos | exact line_width_pos]. Qed.

Let top_bottom_layers_nonneg : 0 <= Sim.num_top_bottom_layers n l w.
Proof.
  unfold Sim.num_top_bottom_layers, Sim.top_bottom_thickness_mm.
  apply Qmult_le_0_compat; [|lra].
  apply Qceiling_nonneg, Qdiv_nonneg; [|assumption].
  apply Qmult_le_0_compat; lra.
Qed.

Lemma total_print_time_pos : 0 < Sim.total_print_time_s dims vol m n l i w s.
Proof.
  unfold Sim.total_print_time_s.
  assert (0 < Sim.time_walls_s dims m n l w s).
  { apply Qdiv_pos.
    - apply Qmult_lt_0_compat; [exact wall_path_pos | exact num_layers_pos].
    - apply Qmult_lt_0_compat; [assumption | exact factor_pos]. }
  assert (0 <= Sim.time_infill_s dims vol m n l i w s).
  { apply Qdiv_nonneg.
    - apply Qmult_le_0_compat;
        [exact infill_path_nonneg | apply Qlt_le_weak, num_layers_pos].
    - apply Qmult_lt_0_compat; [assumption | exact factor_pos]. }
  assert (0 <= Sim.time_top_bottom_s dims vol m n l w s).
  { apply Qdiv_nonneg.
    - apply Qmult_le_0_compat;
        [apply Qlt_le_weak, solid_path_pos | exact top_bottom_layers_nonneg].
    - apply Qmult_lt_0_compat; [assumption | exact factor_pos]. }
  lra.
Qed.

Lemma model_volume_pos : 0 < Sim.model_volume_cm3 dims vol n l i w.
Proof.
  unfold Sim.model_volume_cm3.
  pose proof wall_path_pos as Hwp. pose proof line_width_pos as Hlw.
  pose proof num_layers_pos as Hnl. pose proof infill_path_nonneg as Hip.
  pose proof solid_path_pos as Hsp.
  pose proof top_bottom_layers_nonneg as Htb.
  assert (0 < Sim.wall_volume_mm3 dims n l w).
  { unfold Sim.wall_volume_mm3.
    apply Qmult_lt_0_compat; [|exact Hnl].
    apply Qmult_lt_0_compat; [|exact Hl].
    apply Qmult_lt_0_compat; assumption. }
  assert (0 <= Sim.infill_volume_mm3 dims vol n l i w).
  { unfold Sim.infill_volume_mm3.
    apply Qmult_le_0_compat; [|apply Qlt_le_weak, Hnl].
    apply Qmult_le_0_compat; [|apply Qlt_le_weak, Hl].
    apply Qmult_le_0_compat; [exact Hip | apply Qlt_le_weak, Hlw]. }
  assert (0 <= Sim.top_bottom_volume_mm3 dims vol n l w).
  { unfold Sim.top_bottom_volume_mm3.
    apply Qmult_le_0_compat; [|exact Htb].
    apply Qmult_le_0_compat; [|apply Qlt_le_weak, Hl].
    apply Qmult_le_0_compat; apply Qlt_le_weak; assumption. }
  apply Qdiv_pos; lra.
Qed.

End SupportOverhead.

Lemma truthy_number_positive (q : Q) :
  0 < q -> truthy_number (Some (Js.Fin q)) = true.
Proof.
  intros Hq. cbn [truthy_number]. apply negb_true_iff, not_true_iff_false.
  rewrite Qeq_bool_iff. lra.
Qed.

Lemma speed_modifier_pos (m : Material) :
  speed_modifier_percent m < 100 -> 0 < Sim.speed_modifier m.
Proof.
  intros H. unfold Sim.speed_modifier.
  assert (speed_modifier_percent m / 100 < 1)
    by (apply Qlt_shift_div_r; [reflexivity | lra]).
  lra.
Qed.

(** Scaling both sides of a strict inequality by the positive overheads. *)
Lemma overheads_monotone (a b acc modifier : Q) :
  0 < acc -> 0 < modifier -> a < b ->
  a * acc * modifier / 3600 < b * acc * modifier / 3600.
Proof.
  intros Hacc Hmod Hab.
  apply Qmult_lt_compat_r; [reflexivity|].
  apply Qmult_lt_compat_r; [assumption|].
  apply Qmult_lt_compat_r; assumption.
Qed.

(** C6 (as the code has it). For positive volume and dimensions and
    process parameters that are physically meaningful (positive nozzle
    diameter, layer height, wall count, speeds, acceleration overhead and
    density; infill not negative; speed modifier below 100 %; maximum flow
    rate absent or not negative), raising the support percentage from 0 to
    25 strictly raises both the time and the material mass.  The support
    time is (wall + infill + top/bottom time) x support_percent / 100; the
    travel time is added beside it and is not part of its base. *)
Theorem C6_support_raises_time_and_material (v : ValidationResult)
  (vol : Q) (dims : Dimensions) (m : Material) (n l i w : Q) (s : Settings) :
  volume_cm3 v = Some (Js.Fin vol) -> dimensions_mm v = Some dims ->
  0 < vol -> 0 < dim_x dims -> 0 < dim_y dims -> 0 < dim_z dims ->
  0 < n -> 0 < l -> 0 <= i -> 0 < w ->
  0 < speed_wall_mm_s s -> 0 < speed_infill_mm_s s ->
  0 < speed_top_bottom_mm_s s -> 0 < speed_travel_mm_s s ->
  0 < acceleration_overhead_factor s ->
  speed_modifier_percent m < 100 ->
  0 < density_g_cm3 m ->
  (forall rate, max_flow_rate_mm3_s m = Some rate -> 0 <= rate) ->
  (exists r0 r25,
     calculateQuoteLocally v m n l i w s 0 = Returned r0
     /\ calculateQuoteLocally v m n l i w s 25 = Returned r25
     /\ time_hours r0 < time_hours r25
     /\ material_grams r0 < material_grams r25)
  /\ forall sp,
       Sim.time_support_s dims vol m n l i w s sp
       == (Sim.time_walls_s dims m n l w s
           + Sim.time_infill_s dims vol m n l i w s
           + Sim.time_top_bottom_s dims vol m n l w s) * (sp / 100)
       /\ Sim.base_time_s dims vol m n l i w s sp
          == (Sim.time_walls_s dims m n l w s
              + Sim.time_infill_s dims vol m n l i w s
              + Sim.time_top_bottom_s dims vol m n l w s)
             + Sim.time_travel_s dims l s
             + Sim.time_support_s dims vol m n l i w s sp.
Proof.
  intros Hv Hd Hvol Hx Hy Hz Hn Hl Hi Hw Hwall Hinfill Htop Htravel Hacc Hmod
    Hden Hflow.
  split; [|intros sp; split; reflexivity].
  pose proof (total_print_time_pos dims vol m n l i w s Hvol Hx Hy Hz Hn Hl Hi
                Hw Hwall Hinfill Htop Hflow) as Hprint.
  pose proof (model_volume_pos dims vol n l i w Hvol Hx Hy Hz Hn Hl Hi Hw)
    as Hmodel.
  pose proof (speed_modifier_pos m Hmod) as Hmodifier.
  exists (Sim.result dims vol m n l i w s 0),
         (Sim.result dims vol m n l i w s 25).
  unfold calculateQuoteLocally. rewrite Hv, Hd, (truthy_number_positive vol Hvol).
  cbn [present negb orb]. split; [reflexivity|]. split; [reflexivity|].
  cbn [Sim.result time_hours material_grams]. split.
  - unfold Sim.time_hours, Sim.final_time_s. apply overheads_monotone; trivial.
    unfold Sim.base_time_s, Sim.time_support_s.
    set (P := Sim.total_print_time_s dims vol m n l i w s) in *.
    setoid_replace (0 / 100) with 0 by reflexivity.
    setoid_replace (25 / 100) with (1 # 4) by reflexivity.
    lra.
  - unfold Sim.material_grams, Sim.material_density_g_cm3.
    apply Qmult_lt_compat_r; [assumption|].
    unfold Sim.final_volume_cm3, Sim.support_volume_cm3.
    set (V := Sim.model_volume_cm3 dims vol n l i w) in *.
    setoid_replace (0 / 100) with 0 by reflexivity.
    setoid_replace (25 / 100) with (1 # 4) by reflexivity.
    lra.
Qed.

(** The 100 mm cube in PLA, 0.4 mm nozzle, 0.2 mm layers, 20 % infill, two
    walls, no support: about 9.4 hours and 306 g, well under the 1240 g of
    a solid cube. *)
Example cube_quote :
  exists r,
    calculateQuoteLocally cube pla (4 # 10) (2 # 10) 20 2 default_settings 0
      = Returned r
    /\ time_hours r == 283337 # 30240
    /\ material_grams r == 191208 # 625
    /\ 0 < material_grams r < 1240
    /\ speedScalingFactor r == 1.
Proof. eexists. split; [reflexivity|]. vm_compute. intuition discriminate. Qed.

(** The 100 mm cube in PLA with the default profile. *)
Lemma C6_support_witness :
  exists r0 r25,
    calculateQuoteLocally cube pla (4 # 10) (2 # 10) 20 2 default_settings 0
      = Returned r0
    /\ calculateQuoteLocally cube pla (4 # 10) (2 # 10) 20 2 default_settings 25
      = Returned r25
    /\ time_hours r0 < time_hours r25
    /\ material_grams r0 < material_grams r25.
Proof.
  refine (proj1 (C6_support_raises_time_and_material cube 1000 cube_dims pla
                   (4 # 10) (2 # 10) 20 2 default_settings eq_refl eq_refl
                   _ _ _ _ _ _ _ _ _ _ _ _ _ _ _ _));
    try reflexivity; try discriminate.
  intros rate H. injection H as <-. discriminate.
Defined.

(** C6, counterexample: the acceleration overhead factor set to 0 (what
    the admin form stores for an emptied field).  Geometry and all other
    parameters are the defaults, yet the time is 0 hours with and without
    support. *)
Lemma C6_zero_overhead_counterexample :
  ~ exists r0 r25,
      calculateQuoteLocally cube pla (4 # 10) (2 # 10) 20 2
        (mkSettings default_tiers (mkPrice 110000 (18 # 10)) 70 100 50 200 10 0)
        0 = Returned r0
      /\ calculateQuoteLocally cube pla (4 # 10) (2 # 10) 20 2
        (mkSettings default_tiers (mkPrice 110000 (18 # 10)) 70 100 50 200 10 0)
        25 = Returned r25
      /\ time_hours r0 < time_hours r25
      /\ material_grams r0 < material_grams r25.
Proof.
  intros (r0 & r25 & H0 & H25 & Htime & _).
  injection H0 as <-. injection H25 as <-.
  revert Htime. vm_compute. discriminate.
Qed.

(** ** Sorting and searching the tier table *)

Lemma insert_tier_perm t l : Permutation (t :: l) (insert_tier t l).
Proof.
  induction l as [|u l IH]; cbn [insert_tier]; [reflexivity|].
  destruct (Qle_bool (from_hours t) (from_hours u)); [reflexivity|].
  rewrite perm_swap. apply perm_skip. exact IH.
Qed.

Lemma sort_tiers_perm tiers : Permutation tiers (sort_tiers tiers).
Proof.
  induction tiers as [|t tiers IH]; cbn [sort_tiers]; [constructor|].
  rewrite <- insert_tier_perm. apply perm_skip. exact IH.
Qed.

Lemma insert_tier_hd t u l :
  from_le u t -> HdRel from_le u l -> HdRel from_le u (insert_tier t l).
Proof.
  intros Hut Hl. destruct l as [|x l]; cbn [insert_tier].
  - constructor. exact Hut.
  - destruct (Qle_bool (from_hours t) (from_hours x)); constructor;
      [exact Hut | exact (HdRel_inv Hl)].
Qed.

Lemma insert_tier_sorted t l : Sorted from_le l -> Sorted from_le (insert_tier t l).
Proof.
  induction l as [|u l IH]; intros Hs; cbn [insert_tier].
  - repeat constructor.
  - apply Sorted_inv in Hs as [Hs Hhd].
    destruct (Qle_bool (from_hours t) (from_hours u)) eqn:E.
    + apply Qle_bool_iff in E. repeat constructor; assumption.
    + constructor; [exact (IH Hs)|].
      apply insert_tier_hd; [|exact Hhd].
      unfold from_le. apply Qlt_le_weak, Qnot_le_lt.
      rewrite <- Qle_bool_iff. congruence.
Qed.

Lemma sort_tiers_sorted tiers : Sorted from_le (sort_tiers tiers).
Proof.
  induction tiers as [|t tiers IH]; cbn [sort_tiers]; [constructor|].
  apply insert_tier_sorted. exact IH.
Qed.

(** The sort is stable: the tiers that start at a given hour keep the
    order they had. *)
Lemma insert_tier_stable h t l :
  filter (fun u => Qeq_bool (from_hours u) h) (insert_tier t l)
  = filter (fun u => Qeq_bool (from_hours u) h) (t :: l).
Proof.
  induction l as [|u l IH]; [reflexivity|]. cbn [insert_tier].
  destruct (Qle_bool (from_hours t) (from_hours u)) eqn:E; [reflexivity|].
  cbn [filter] in *. rewrite IH.
  destruct (Qeq_bool (from_hours t) h) eqn:Et; [|reflexivity].
  destruct (Qeq_bool (from_hours u) h) eqn:Eu; [|reflexivity].
  apply Qeq_bool_iff in Et, Eu.
  assert (Qle_bool (from_hours t) (from_hours u) = true)
    by (apply Qle_bool_iff; lra).
  congruence.
Qed.

Lemma sort_tiers_stable h tiers :
  filter (fun u => Qeq_bool (from_hours u) h) (sort_tiers tiers)
  = filter (fun u => Qeq_bool (from_hours u) h) tiers.
Proof.
  induction tiers as [|t tiers IH]; [reflexivity|].
  cbn [sort_tiers]. rewrite insert_tier_stable. cbn [filter].
  rewrite IH. reflexivity.
Qed.

(** A table already in ascending order is left as it is. *)
Lemma insert_tier_head t l : HdRel from_le t l -> insert_tier t l = t :: l.
Proof.
  destruct l as [|u l]; [reflexivity|]. intros H. apply HdRel_inv in H.
  cbn [insert_tier]. apply Qle_bool_iff in H. rewrite H. reflexivity.
Qed.

Lemma sort_tiers_sorted_id tiers : Sorted from_le tiers -> sort_tiers tiers = tiers.
Proof.
  induction tiers as [|t tiers IH]; [reflexivity|]. intros Hs.
  apply Sorted_inv in Hs as [Hs Hhd]. cbn [sort_tiers].
  rewrite (IH Hs). apply insert_tier_head. exact Hhd.
Qed.

(** [find] returns the first element that satisfies the predicate. *)
Lemma find_first {A : Type} (p : A -> bool) (l : list A) (x : A) :
  find p l = Some x ->
  exists before after,
    l = before ++ x :: after /\ p x = true
    /\ forall y, In y before -> p y = false.
Proof.
  induction l as [|a l IH]; [discriminate|]. cbn [find].
  destruct (p a) eqn:E.
  - intros H. injection H as <-. exists [], l. repeat split; auto.
    intros y [].
  - intros H. destruct (IH H) as (before & after & -> & Hx & Hb).
    exists (a :: before), after. repeat split; auto.
    intros y [<-|Hy]; auto.
Qed.

Lemma find_exists {A : Type} (p : A -> bool) (l : list A) (x : A) :
  In x l -> p x = true -> exists y, find p l = Some y.
Proof.
  intros Hin Hp. destruct (find p l) as [y|] eqn:E; [eauto|].
  rewrite (find_none _ _ E x Hin) in Hp. discriminate.
Qed.

Lemma tier_applies_iff h t : tier_applies h t = true <-> in_tier h t.
Proof.
  unfold tier_applies, below_bound, in_tier. rewrite andb_true_iff, Qle_bool_iff.
  destruct (to_hours t); [rewrite Qlt_bool_iff|]; tauto.
Qed.

#[export] Instance from_le_transitive : RelationClasses.Transitive from_le.
Proof. intros a b c. unfold from_le. apply Qle_trans. Qed.

#[export] Instance discount_le_transitive : RelationClasses.Transitive discount_le.
Proof. intros a b c. unfold discount_le. apply Qle_trans. Qed.

Lemma StronglySorted_after {A : Type} (R : A -> A -> Prop) before x after :
  StronglySorted R (before ++ x :: after) -> forall y, In y after -> R x y.
Proof.
  induction before as [|a before IH]; cbn [app]; intros Hs y Hy.
  - apply StronglySorted_inv in Hs as [_ Hall].
    rewrite Forall_forall in Hall. auto.
  - apply StronglySorted_inv in Hs as [Hs _]. eauto.
Qed.

(** ** Tier monotonicity *)

Lemma well_formed_applicable tiers h :
  well_formed_tiers tiers -> 0 <= h ->
  exists t, applicableTier tiers h = Some t.
Proof.
  intros Hwf Hh. specialize (Hwf h Hh).
  destruct (filter (tier_applies h) tiers) as [|t rest] eqn:E; [discriminate|].
  assert (Ht : In t (filter (tier_applies h) tiers)) by (rewrite E; left; auto).
  apply filter_In in Ht as [Hin Happ].
  apply (find_exists _ _ t); [|exact Happ].
  apply (Permutation_in _ (sort_tiers_perm tiers)). exact Hin.
Qed.

(** Of two hour values, the larger one is served by the same tier or by a
    later one of the sorted table. *)
Lemma applicable_order tiers h1 h2 t1 t2 :
  h1 <= h2 ->
  applicableTier tiers h1 = Some t1 ->
  applicableTier tiers h2 = Some t2 ->
  t1 = t2
  \/ exists before between after,
       sort_tiers tiers = before ++ t1 :: between ++ t2 :: after.
Proof.
  intros Hle H1 H2. unfold applicableTier in *.
  destruct (find_first _ _ _ H1) as (b1 & a1 & E1 & Happ1 & Hnone1).
  destruct (find_first _ _ _ H2) as (b2 & a2 & E2 & Happ2 & _).
  pose proof (sort_tiers_sorted tiers) as Hsorted.
  apply Sorted_StronglySorted in Hsorted; [|exact from_le_transitive].
  pose proof E1 as E. rewrite E2 in E. symmetry in E.
  apply app_eq_app in E as [l [[Eb Ea] | [Eb Ea]]].
  - (* t2 would come before t1 *)
    destruct l as [|x l]; cbn [app] in Ea; [left; congruence|].
    exfalso. injection Ea as <- ->.
    assert (Hfrom : from_le t2 t1).
    { apply (StronglySorted_after from_le b2 t2 (l ++ t1 :: a1)).
      - rewrite <- E2. exact Hsorted.
      - apply in_elt. }
    assert (Hfalse : tier_applies h1 t2 = false)
      by (apply Hnone1; rewrite Eb; apply in_elt).
    apply tier_applies_iff in Happ1 as [Hfrom1 _].
    apply tier_applies_iff in Happ2 as [_ Hto2].
    assert (Htrue : tier_applies h1 t2 = true).
    { apply tier_applies_iff. unfold from_le, in_tier in *. split; [lra|].
      destruct (to_hours t2); [lra | exact I]. }
    congruence.
  - destruct l as [|x l]; cbn [app] in Ea; [left; congruence|].
    injection Ea as <- ->. right. exists b1, l, a2. exact E1.
Qed.

(** Below the start of a chained table nothing applies. *)
Lemma chained_none_below tiers : forall start h,
  chained_from start tiers = true -> h < start ->
  filter (tier_applies h) tiers = [].
Proof.
  induction tiers as [|t rest IH]; intros start h Hc Hh; [reflexivity|].
  cbn [chained_from] in Hc. apply andb_prop in Hc as [Hfrom Hc].
  apply Qeq_bool_iff in Hfrom. cbn [filter].
  assert (Hno : tier_applies h t = false).
  { apply not_true_iff_false. rewrite tier_applies_iff. unfold in_tier. lra. }
  rewrite Hno.
  destruct (to_hours t) as [e|]; destruct rest as [|u rest'];
    try discriminate; [|reflexivity].
  apply andb_prop in Hc as [Hlt Hc]. apply Qlt_bool_iff in Hlt.
  apply (IH e); [exact Hc | lra].
Qed.

Lemma chained_exactly_one tiers : forall start h,
  chained_from start tiers = true -> start <= h ->
  length (filter (tier_applies h) tiers) = 1%nat.
Proof.
  induction tiers as [|t rest IH]; intros start h Hc Hh; [discriminate|].
  cbn [chained_from] in Hc. apply andb_prop in Hc as [Hfrom Hc].
  apply Qeq_bool_iff in Hfrom. cbn [filter].
  destruct (to_hours t) as [e|] eqn:Eto; destruct rest as [|u rest'];
    try discriminate.
  - apply andb_prop in Hc as [Hlt Hc]. apply Qlt_bool_iff in Hlt.
    destruct (Qlt_le_dec h e) as [Hhe|Hhe].
    + assert (Hyes : tier_applies h t = true)
        by (apply tier_applies_iff; unfold in_tier; rewrite Eto; split; lra).
      rewrite Hyes. cbn [length].
      rewrite (chained_none_below (u :: rest') e h Hc Hhe). reflexivity.
    + assert (Hno : tier_applies h t = false).
      { apply not_true_iff_false. rewrite tier_applies_iff.
        unfold in_tier. rewrite Eto. lra. }
      rewrite Hno. apply (IH e); assumption.
  - assert (Hyes : tier_applies h t = true)
      by (apply tier_applies_iff; unfold in_tier; rewrite Eto; split;
          [lra | exact I]).
    rewrite Hyes. reflexivity.
Qed.

(** A table chained from zero hours is well formed. *)
Lemma chained_well_formed tiers :
  chained_from 0 tiers = true -> well_formed_tiers tiers.
Proof. intros Hc h Hh. exact (chained_exactly_one tiers 0 h Hc Hh). Qed.

(** C8 (as the code has it). For a well-formed tier table whose discounts
    do not fall from one tier to the next in ascending from_hours order,
    the discount selected by the lookup is non-decreasing in the total
    machine-hours. *)
Theorem C8_discount_monotone (tiers : list PricingTier) (h1 h2 : Q) :
  well_formed_tiers tiers ->
  ascending_discounts tiers ->
  0 <= h1 -> h1 <= h2 ->
  discountPercent tiers h1 <= discountPercent tiers h2.
Proof.
  intros Hwf Hasc H1 H12.
  destruct (well_formed_applicable tiers h1 Hwf H1) as [t1 E1].
  destruct (well_formed_applicable tiers h2 Hwf) as [t2 E2]; [lra|].
  unfold discountPercent. rewrite E1, E2.
  destruct (applicable_order tiers h1 h2 t1 t2 H12 E1 E2)
    as [-> | (before & between & after & E)]; [lra|].
  unfold ascending_discounts in Hasc.
  apply Sorted_StronglySorted in Hasc; [|exact discount_le_transitive].
  rewrite E in Hasc.
  apply (StronglySorted_after discount_le before t1 (between ++ t2 :: after) Hasc).
  apply in_elt.
Qed.

Lemma C8_discount_witness :
  well_formed_tiers default_tiers
  /\ ascending_discounts default_tiers
  /\ discountPercent default_tiers 600 <= discountPercent default_tiers 2000.
Proof.
  assert (Hwf : well_formed_tiers default_tiers)
    by (apply chained_well_formed; reflexivity).
  assert (Hasc : ascending_discounts default_tiers)
    by (unfold ascending_discounts, discount_le; cbn;
        repeat constructor; cbn; discriminate).
  split; [exact Hwf|]. split; [exact Hasc|].
  apply (C8_discount_monotone default_tiers 600 2000 Hwf Hasc); discriminate.
Defined.

(** C8, counterexample: a table that is well formed and has no overlap,
    with 10 % up to 500 hours and nothing beyond.  The discount falls
    from 10 at 100 hours to 0 at 600 hours. *)
Lemma C8_falling_discount_counterexample :
  well_formed_tiers falling_tiers
  /\ 0 <= 100 /\ 100 <= 600
  /\ ~ discountPercent falling_tiers 100 <= discountPercent falling_tiers 600.
Proof.
  split; [apply chained_well_formed; reflexivity|].
  split; [discriminate|]. split; [discriminate|].
  vm_compute. intros H. apply H. reflexivity.
Qed.

(** ** The price *)

Lemma round_toman_comp p p' : p == p' -> round_toman p == round_toman p'.
Proof. intros H. unfold round_toman. rewrite H. reflexivity. Qed.

Lemma round_usd_comp p p' : p == p' -> round_usd p == round_usd p'.
Proof.
  intros H. unfold round_usd.
  assert (Hbig : Qle_bool (inject_Z (10 ^ 21)) (Qabs p)
                 = Qle_bool (inject_Z (10 ^ 21)) (Qabs p'))
    by (rewrite H; reflexivity).
  assert (Hfloor : Qfloor (Qabs p * 100 + (1 # 2))
                   = Qfloor (Qabs p' * 100 + (1 # 2)))
    by (rewrite H; reflexivity).
  assert (Hneg : Qlt_bool p 0 = Qlt_bool p' 0)
    by (unfold Qlt_bool; rewrite H; reflexivity).
  rewrite Hbig, Hfloor, Hneg.
  destruct (Qle_bool (inject_Z (10 ^ 21)) (Qabs p')); [exact H|].
  reflexivity.
Qed.

Lemma round_price_comp language p p' :
  p == p' -> round_price language p == round_price language p'.
Proof.
  destruct language; [apply round_toman_comp | apply round_usd_comp].
Qed.


Example round_toman_up : round_toman 1080500 == 1081000.
Proof. reflexivity. Qed.

Example round_usd_half_up : round_usd (1005 # 1000) == 101 # 100.
Proof. reflexivity. Qed.

Example round_usd_negative : round_usd (- (2345 # 1000)) == - (235 # 100).
Proof. reflexivity. Qed.

(** The discount the memo applies is the one of the tier lookup. *)
Lemma finalPriceMemo_result rawQuote quantity quoteData tiers language :
  Qeq_bool quantity 0 = false ->
  fst (finalPriceMemo (Some rawQuote) quantity (Some quoteData) tiers language)
  = let percent := discountPercent tiers (time_hours rawQuote * quantity) in
    let machine := machine_time_cost quoteData * quantity in
    let material := material_cost quoteData * quantity in
    mkSummary (round_price language
                 (material + (machine - machine * (percent / 100))))
              (machine * (percent / 100)) material machine.
Proof.
  intros Hq. unfold finalPriceMemo. rewrite Hq. reflexivity.
Qed.

Lemma finalPriceMemo_no_quantity rawQuote quantity quoteData tiers language :
  Qeq_bool quantity 0 = true ->
  finalPriceMemo rawQuote quantity quoteData tiers language
  = (mkSummary 0 0 0 0, tiers).
Proof.
  intros Hq. unfold finalPriceMemo. rewrite Hq.
  destruct rawQuote, quoteData; reflexivity.
Qed.




Example long_job_price_usd :
  finalPrice (fst (finalPriceMemo (Some long_job) 1 (Some long_job_quote)
                     scenario_tiers en)) == 97323 # 100.
Proof. vm_compute. reflexivity. Qed.

Example long_job_price_toman :
  finalPrice (fst (finalPriceMemo (Some long_job) 1 (Some long_job_quote)
                     scenario_tiers fa)) == 1000.
Proof. vm_compute. reflexivity. Qed.

(** ** What the price computation does to the tier table *)

(** The table keeps its contents. *)
Lemma finalPriceMemo_tiers_perm rawQuote quantity quoteData tiers language :
  Permutation tiers
    (snd (finalPriceMemo rawQuote quantity quoteData tiers language)).
Proof.
  unfold finalPriceMemo.
  destruct rawQuote; [|reflexivity]. destruct quoteData; [|reflexivity].
  destruct (Qeq_bool quantity 0); [reflexivity|].
  cbn [snd]. apply sort_tiers_perm.
Qed.

(** A table already in ascending order is not touched. *)
Lemma finalPriceMemo_tiers_sorted rawQuote quantity quoteData tiers language :
  Sorted from_le tiers ->
  snd (finalPriceMemo rawQuote quantity quoteData tiers language) = tiers.
Proof.
  intros Hs. unfold finalPriceMemo.
  destruct rawQuote; [|reflexivity]. destruct quoteData; [|reflexivity].
  destruct (Qeq_bool quantity 0); [reflexivity|].
  cbn [snd]. apply sort_tiers_sorted_id. exact Hs.
Qed.

(** C9. Computing a price is meant to leave [pricingTiers] as supplied, in
    contents and order.  On a table that is not in ascending from_hours
    order it does not: the array comes back reordered. *)
Theorem C9_price_reorders_tiers :
  snd (finalPriceMemo (Some long_job) 1 (Some long_job_quote)
         unsorted_tiers en) = scenario_tiers
  /\ snd (finalPriceMemo (Some long_job) 1 (Some long_job_quote)
            unsorted_tiers en) <> unsorted_tiers.
Proof. split; [reflexivity | discriminate]. Qed.

(** * Further properties of the code *)

(** ** The volume loop, whatever the buffers hold *)

Lemma accumulate_add_triple read i volume :
  accumulate read i volume = add_triple volume (read_triple read i).
Proof.
  unfold accumulate, add_triple, read_triple.
  destruct (read i), (read (i + 1)%nat), (read (i + 2)%nat); reflexivity.
Qed.

(** [n] iterations are what the guard allows from [i] up to [count]. *)
Lemma for_by3_triples read count : forall n fuel i volume,
  (n <= fuel)%nat -> (count <= i + 3 * n)%nat ->
  (n = 0 \/ i + 3 * n < count + 3)%nat ->
  for_by3 fuel i count (accumulate read) volume
  = fold_left add_triple (triples read i n) volume.
Proof.
  induction n as [|n IH]; intros fuel i volume Hfuel Hhi Hlo.
  - cbn [triples fold_left]. destruct fuel; [reflexivity|]. cbn [for_by3].
    replace (i <? count)%nat with false; [reflexivity|].
    symmetry. apply Nat.ltb_ge. lia.
  - destruct fuel as [|fuel]; [lia|]. cbn [for_by3 triples fold_left].
    replace (i <? count)%nat with true by (symmetry; apply Nat.ltb_lt; lia).
    rewrite accumulate_add_triple. apply IH; lia.
Qed.

Lemma triples_snoc read : forall n i,
  triples read i (S n) = triples read i n ++ [read_triple read (i + 3 * n)%nat].
Proof.
  induction n as [|n IH]; intros i.
  - cbn [triples app]. replace (i + 3 * 0)%nat with i by lia. reflexivity.
  - change (triples read i (S (S n)))
      with (read_triple read i :: triples read (i + 3) (S n)).
    rewrite IH. cbn [triples app].
    replace (i + 3 + 3 * n)%nat with (i + 3 * S n)%nat by lia. reflexivity.
Qed.

Lemma triples_shift read read' : forall n i,
  (forall k, read (k + 3)%nat = read' k) ->
  triples read (i + 3) n = triples read' i n.
Proof.
  induction n as [|n IH]; intros i Hshift; [reflexivity|].
  cbn [triples]. rewrite (IH (i + 3)%nat Hshift). f_equal.
  unfold read_triple.
  replace (i + 3 + 1)%nat with (i + 1 + 3)%nat by lia.
  replace (i + 3 + 2)%nat with (i + 2 + 3)%nat by lia.
  rewrite !Hshift. reflexivity.
Qed.

Lemma fold_add_triple_NaN ts : fold_left add_triple ts Js.NaN = Js.NaN.
Proof.
  induction ts as [|[[[a|] [b|]] [c|]] ts IH]; cbn [fold_left add_triple Js.add];
    auto.
Qed.

(** One incomplete triple spoils the sum for good. *)
Lemma fold_add_triple_incomplete ts : forall volume t,
  In t ts -> triple_complete t = false ->
  fold_left add_triple ts volume = Js.NaN.
Proof.
  induction ts as [|u ts IH]; intros volume t Hin Hbad; [destruct Hin|].
  cbn [fold_left]. destruct Hin as [->|Hin]; [|eauto].
  replace (add_triple volume t) with Js.NaN; [apply fold_add_triple_NaN|].
  destruct t as [[[a|] [b|]] [c|]]; try discriminate; reflexivity.
Qed.

Lemma indexed_triples pool : forall faces,
  triples (fromIndexed pool (face_indices faces)) 0 (length faces)
  = map (face_reads pool) faces.
Proof.
  induction faces as [|[[i j] k] faces IH]; [reflexivity|].
  cbn [length triples map]. f_equal.
  rewrite <- IH. apply (triples_shift _ _ (length faces) 0%nat).
  intros n. unfold fromIndexed.
  change (face_indices (((i, j), k) :: faces))
    with (i :: j :: k :: face_indices faces).
  replace (n + 3)%nat with (S (S (S n))) by lia. reflexivity.
Qed.

Lemma nth_error_present {A : Type} (l : list A) (n : nat) :
  present (nth_error l n) = (n <? length l)%nat.
Proof.
  destruct (nth_error l n) eqn:E; cbn [present]; symmetry.
  - apply Nat.ltb_lt, nth_error_Some. congruence.
  - apply Nat.ltb_ge, nth_error_None. exact E.
Qed.

Lemma face_reads_complete pool f :
  triple_complete (face_reads pool f) = face_in_range pool f.
Proof.
  destruct f as [[i j] k]. cbn [face_reads face_in_range].
  rewrite <- !nth_error_present.
  destruct (nth_error pool i), (nth_error pool j), (nth_error pool k);
    reflexivity.
Qed.

Lemma forallb_false_exists {A : Type} (p : A -> bool) (l : list A) :
  forallb p l = false -> exists x, In x l /\ p x = false.
Proof.
  induction l as [|a l IH]; [discriminate|]. cbn [forallb].
  destruct (p a) eqn:E; cbn [andb].
  - intros H. destruct (IH H) as (x & Hx & Hp). exists x. split; [right|]; auto.
  - intros _. exists a. split; [left|]; auto.
Qed.

(** X1. Without an index, the computed volume is NaN exactly when the
    number of positions is not a multiple of three: the last iteration
    then reads past the end of the buffer. *)
Theorem X1_dangling_positions_give_NaN (pos : list Vector3) :
  calculateVolume (mkGeometry true pos None) = Js.NaN
  <-> (length pos mod 3 <> 0)%nat.
Proof.
  split.
  - intros HNaN Hmod.
    destruct (soup_positions_onto (length pos / 3) pos) as [fs ->].
    { rewrite (Nat.div_mod_eq (length pos) 3) at 1. lia. }
    destruct (calculateVolume_soup fs) as (r & Hr & _).
    unfold soup_geometry in Hr. congruence.
  - intros Hmod. unfold calculateVolume.
    cbn [isBufferGeometry negb position index].
    pose proof (Nat.div_mod_eq (length pos) 3) as Hlen.
    pose proof (Nat.mod_upper_bound (length pos) 3) as Hr.
    set (m := (length pos / 3)%nat) in *.
    rewrite (for_by3_triples _ (length pos) (S m)) by lia.
    rewrite triples_snoc.
    rewrite (fold_add_triple_incomplete _ _
               (read_triple (fromBufferAttribute pos) (0 + 3 * m)%nat));
      [reflexivity | apply in_elt |].
    unfold read_triple, fromBufferAttribute.
    replace (nth_error pos (0 + 3 * m + 2)) with (@None Vector3).
    + destruct (nth_error pos (0 + 3 * m)), (nth_error pos (0 + 3 * m + 1));
        reflexivity.
    + symmetry. apply nth_error_None. lia.
Qed.

(** X2. With an index, the computed volume is NaN exactly when some facet
    names a vertex outside the position buffer. *)
Theorem X2_index_out_of_range_gives_NaN (pool : list Vector3)
  (faces : list Face) :
  calculateVolume (indexed_geometry pool faces) = Js.NaN
  <-> faces_in_range pool faces = false.
Proof.
  split.
  - intros HNaN. destruct (faces_in_range pool faces) eqn:E; [|reflexivity].
    destruct (calculateVolume_indexed pool faces E) as (r & Hr & _).
    congruence.
  - intros Hrange. unfold calculateVolume, indexed_geometry.
    cbn [isBufferGeometry negb position index].
    rewrite face_indices_length.
    rewrite (for_by3_triples _ (3 * length faces) (length faces)) by lia.
    rewrite indexed_triples.
    destruct (forallb_false_exists _ _ Hrange) as (f & Hf & Hbad).
    rewrite (fold_add_triple_incomplete _ _ (face_reads pool f));
      [reflexivity | apply in_map; exact Hf |].
    rewrite face_reads_complete. exact Hbad.
Qed.

(** ** Models of several meshes *)

Lemma calculateVolume_nonnegative g : nonnegative (calculateVolume g).
Proof.
  unfold calculateVolume.
  destruct (isBufferGeometry g); cbn [negb]; [|cbn; lra].
  destruct (index g);
    match goal with
    | |- nonnegative (Js.abs ?v) =>
        destruct v; cbn [Js.abs nonnegative]; [apply Qabs_nonneg | exact I]
    end.
Qed.

Lemma totalVolume_from_nonnegative geometries : forall total,
  nonnegative total ->
  nonnegative (fold_left (fun t geom => Js.add t (calculateVolume geom))
                 geometries total).
Proof.
  induction geometries as [|g gs IH]; intros total Htotal; [exact Htotal|].
  cbn [fold_left]. apply IH.
  pose proof (calculateVolume_nonnegative g) as Hg.
  destruct total, (calculateVolume g); cbn [Js.add nonnegative] in *;
    [lra | exact I | exact I | exact I].
Qed.

(** X3. Whatever the geometries hold, the reported volume is never
    negative: it is a number that is at least 0, or NaN. *)
Theorem X3_volume_never_negative (geometries : list BufferGeometry) :
  nonnegative (volume_cm3_of geometries).
Proof.
  unfold volume_cm3_of, totalVolumeMm3.
  pose proof (totalVolume_from_nonnegative geometries (Js.Fin 0)) as H.
  destruct (fold_left _ geometries (Js.Fin 0)); cbn [Js.div nonnegative] in *;
    [|exact I].
  apply Qdiv_nonneg; [apply H; cbn; lra | reflexivity].
Qed.

Lemma totalVolume_soups meshes : forall v,
  exists r,
    fold_left (fun t geom => Js.add t (calculateVolume geom))
      (map soup_geometry meshes) (Js.Fin v) = Js.Fin r
    /\ r == v + sum_abs_volumes meshes.
Proof.
  induction meshes as [|fs meshes IH]; intros v.
  - exists v. split; [reflexivity|]. cbn. lra.
  - cbn [map fold_left].
    destruct (calculateVolume_soup fs) as (a & Ha & Hsum). rewrite Ha.
    cbn [Js.add]. destruct (IH (v + a)) as (r & Hr & Hr').
    exists r. split; [exact Hr|].
    rewrite Hr', Hsum. cbn [sum_abs_volumes]. lra.
Qed.

(** X4. For a model of several meshes the reported volume is the sum of
    the absolute values of the meshes' signed sums, over 1000: a mesh
    that is wound inside out adds to the total, it does not cancel. *)
Theorem X4_meshes_add_absolute_volumes (meshes : list (list Triangle)) :
  volume_cm3_of (map soup_geometry meshes)
  =js= Js.Fin (sum_abs_volumes meshes / 1000).
Proof.
  unfold volume_cm3_of, totalVolumeMm3.
  destruct (totalVolume_soups meshes 0) as (r & Hr & Hsum).
  rewrite Hr. cbn [Js.div Js.eq]. rewrite Hsum. field.
Qed.

(** ** Symmetries of the computed volume *)

Lemma sum_facet_volumes_flip fs :
  sum_facet_volumes (map flip_triangle fs) == - sum_facet_volumes fs.
Proof.
  induction fs as [|[[a b] c] fs IH]; cbn [map sum_facet_volumes]; [ring|].
  rewrite IH.
  unfold facet_volume, flip_triangle, signedVolumeOfTriangle, dot, cross.
  cbn [vx vy vz]. field.
Qed.

Lemma sum_facet_volumes_scale k fs :
  sum_facet_volumes (map (scale_triangle k) fs)
  == k * k * k * sum_facet_volumes fs.
Proof.
  induction fs as [|[[a b] c] fs IH]; cbn [map sum_facet_volumes]; [ring|].
  rewrite IH.
  unfold facet_volume, scale_triangle, signedVolumeOfTriangle, dot, cross,
    vscale.
  cbn [vx vy vz]. field.
Qed.

Lemma sum_facet_volumes_permutation fs fs' :
  Permutation fs fs' -> sum_facet_volumes fs == sum_facet_volumes fs'.
Proof.
  induction 1; cbn [sum_facet_volumes]; try lra.
Qed.

Lemma soup_volume_cm3 fs :
  exists v, volume_cm3_of [soup_geometry fs] = Js.Fin v
            /\ v == Qabs (sum_facet_volumes fs) / 1000.
Proof.
  destruct (calculateVolume_soup fs) as (r & Hr & Hsum).
  exists ((0 + r) / 1000). split; [apply volume_cm3_of_single; exact Hr|].
  rewrite Hsum. field.
Qed.

(** X5. Reversing the winding of every facet (turning the mesh inside
    out) leaves the computed volume as it was: the analyzer does not
    notice inverted normals. *)
Theorem X5_volume_ignores_winding (fs : list Triangle) :
  volume_cm3_of [soup_geometry (map flip_triangle fs)]
  =js= volume_cm3_of [soup_geometry fs].
Proof.
  destruct (soup_volume_cm3 fs) as (v & -> & Hv).
  destruct (soup_volume_cm3 (map flip_triangle fs)) as (v' & -> & Hv').
  cbn [Js.eq]. rewrite Hv, Hv', sum_facet_volumes_flip, Qabs_opp. reflexivity.
Qed.

(** X6. Scaling every vertex by k multiplies the computed volume by
    |k| x |k| x |k|. *)
Theorem X6_volume_scale_law (k : Q) (fs : list Triangle) :
  exists v,
    volume_cm3_of [soup_geometry fs] = Js.Fin v
    /\ volume_cm3_of [soup_geometry (map (scale_triangle k) fs)]
       =js= Js.Fin (Qabs k * Qabs k * Qabs k * v).
Proof.
  destruct (soup_volume_cm3 fs) as (v & Hfs & Hv).
  destruct (soup_volume_cm3 (map (scale_triangle k) fs)) as (v' & -> & Hv').
  exists v. split; [exact Hfs|]. cbn [Js.eq].
  rewrite Hv', Hv, sum_facet_volumes_scale, !Qabs_Qmult. field.
Qed.

(** X7. The computed volume does not depend on the order in which the
    facets are stored. *)
Theorem X7_volume_ignores_facet_order (fs fs' : list Triangle) :
  Permutation fs fs' ->
  volume_cm3_of [soup_geometry fs'] =js= volume_cm3_of [soup_geometry fs].
Proof.
  intros Hperm.
  destruct (soup_volume_cm3 fs) as (v & -> & Hv).
  destruct (soup_volume_cm3 fs') as (v' & -> & Hv').
  cbn [Js.eq]. rewrite Hv, Hv', (sum_facet_volumes_permutation _ _ Hperm).
  reflexivity.
Qed.

Lemma X7_facet_order_witness :
  Permutation tetra_facets (rev tetra_facets)
  /\ volume_cm3_of [soup_geometry (rev tetra_facets)]
     =js= volume_cm3_of [soup_geometry tetra_facets].
Proof.
  split; [apply Permutation_rev|].
  exact (X7_volume_ignores_facet_order tetra_facets (rev tetra_facets)
           (Permutation_rev tetra_facets)).
Defined.

(** ** The simulator: flow limit, thin parts, sign of the result *)

(** X8. With a positive maximum flow rate, the flow at the derated infill
    speed, layer height x line width x effective infill speed, is the
    smaller of the theoretical rate and the maximum: the derating brings
    the flow down to the limit and never below it. *)
Theorem X8_derated_flow_meets_limit (m : Material) (rate d h : Q)
  (s : Settings) :
  max_flow_rate_mm3_s m = Some rate ->
  0 < rate -> 0 < d -> 0 < h -> 0 < speed_infill_mm_s s ->
  h * Sim.line_width_mm d * Sim.effective_speed_infill_mm_s m d h s
  == Qmin (Sim.theoreticalFlowRate d h s) rate.
Proof.
  intros Hm Hrate Hd Hh Hs.
  unfold Sim.effective_speed_infill_mm_s.
  destruct (speedScalingFactor_cases m d h s)
    as [[Hn _] | [(r & Hr & Hside & ->) | (r & Hr & _ & Hlt & ->)]].
  - congruence.
  - rewrite Hm in Hr. injection Hr as <-.
    destruct Hside as [Hz|Hle]; [lra|].
    rewrite (Q.min_l _ _ Hle). unfold Sim.theoreticalFlowRate. ring.
  - rewrite Hm in Hr. injection Hr as <-.
    rewrite (Q.min_r _ _ (Qlt_le_weak _ _ Hlt)).
    assert (Hpos : 0 < Sim.theoreticalFlowRate d h s) by lra.
    transitivity (Sim.theoreticalFlowRate d h s
                  * (rate / Sim.theoreticalFlowRate d h s)).
    + unfold Sim.theoreticalFlowRate at 2. ring.
    + field. lra.
Qed.

Lemma X8_derated_flow_witness :
  (36 # 100) * Sim.line_width_mm (6 # 10)
  * Sim.effective_speed_infill_mm_s pla (6 # 10) (36 # 100) default_settings
  == Qmin (Sim.theoreticalFlowRate (6 # 10) (36 # 100) default_settings) 20.
Proof.
  apply (X8_derated_flow_meets_limit pla 20 (6 # 10) (36 # 100)
           default_settings eq_refl); reflexivity.
Defined.

Lemma theoreticalFlowRate_monotone d h s v1 v2 :
  0 < d -> 0 < h -> v1 <= v2 ->
  Sim.theoreticalFlowRate d h (with_speed_infill s v1)
  <= Sim.theoreticalFlowRate d h (with_speed_infill s v2).
Proof.
  intros Hd Hh Hv. unfold Sim.theoreticalFlowRate, Sim.line_width_mm.
  cbn [with_speed_infill speed_infill_mm_s].
  apply Qmult_le_l; [|exact Hv].
  apply Qmult_lt_0_compat; [exact Hh|]. apply Qmult_lt_0_compat; lra.
Qed.

(** X9. For a fixed maximum flow rate (absent or not negative), the speed
    scaling factor does not rise when the configured infill speed does. *)
Theorem X9_factor_falls_with_infill_speed (m : Material) (d h : Q)
  (s : Settings) (v1 v2 : Q) :
  (forall rate, max_flow_rate_mm3_s m = Some rate -> 0 <= rate) ->
  0 < d -> 0 < h -> 0 < v1 -> v1 <= v2 ->
  Sim.speedScalingFactor m d h (with_speed_infill s v2)
  <= Sim.speedScalingFactor m d h (with_speed_infill s v1).
Proof.
  intros Hflow Hd Hh Hv1 Hv.
  pose proof (theoreticalFlowRate_monotone d h s v1 v2 Hd Hh Hv) as Hmono.
  pose proof (speedScalingFactor_range m d h (with_speed_infill s v2) Hflow)
    as [_ Hle2].
  destruct (speedScalingFactor_cases m d h (with_speed_infill s v1))
    as [[_ ->] | [(r & _ & _ & ->) | (r & Hr & Hnz & Hlt & ->)]];
    [exact Hle2 | exact Hle2 |].
  destruct (speedScalingFactor_cases m d h (with_speed_infill s v2))
    as [[Hn _] | [(r' & Hr' & Hside & _) | (r' & Hr' & _ & Hlt' & ->)]].
  - congruence.
  - rewrite Hr in Hr'. injection Hr' as <-.
    destruct Hside as [Hz|Hge]; [contradiction | lra].
  - rewrite Hr in Hr'. injection Hr' as <-.
    pose proof (Hflow r Hr) as Hr0.
    assert (0 < r) by (destruct (Qle_lt_or_eq _ _ Hr0) as [H|H];
                       [exact H | symmetry in H; contradiction]).
    apply Qle_shift_div_l; [lra|].
    unfold Qdiv. rewrite <- Qmult_assoc.
    rewrite <- (Qmult_1_r r) at 2.
    apply Qmult_le_l; [assumption|].
    rewrite Qmult_comm. apply Qle_shift_div_r; lra.
Qed.

Lemma X9_factor_witness :
  Sim.speedScalingFactor pla (6 # 10) (36 # 100)
    (with_speed_infill default_settings 150)
  <= Sim.speedScalingFactor pla (6 # 10) (36 # 100)
       (with_speed_infill default_settings 100).
Proof.
  apply (X9_factor_falls_with_infill_speed pla (6 # 10) (36 # 100)
           default_settings 100 150); try reflexivity; try discriminate.
  intros rate H. injection H as <-. discriminate.
Defined.

Lemma thin_infill_path dims vol d i w :
  Sim.avg_layer_area_mm2 dims vol <= Sim.wall_area_per_layer_mm2 dims d w ->
  Sim.infill_path_length_per_layer_mm dims vol d i w == 0.
Proof.
  intros Hthin.
  unfold Sim.infill_path_length_per_layer_mm, Sim.infill_area_per_layer_mm2.
  rewrite Q.max_l by lra. unfold Qdiv. ring.
Qed.

(** X10. When the walls alone cover the average layer (wall area at least
    the layer area), the infill area is clamped to zero and the infill
    percentage has no effect on the outcome. *)
Theorem X10_thin_part_ignores_infill (v : ValidationResult) (vol : Q)
  (dims : Dimensions) (m : Material) (d h w : Q) (s : Settings)
  (sp i i' : Q) :
  volume_cm3 v = Some (Js.Fin vol) -> dimensions_mm v = Some dims ->
  Sim.avg_layer_area_mm2 dims vol <= Sim.wall_area_per_layer_mm2 dims d w ->
  same_outcome (calculateQuoteLocally v m d h i w s sp)
               (calculateQuoteLocally v m d h i' w s sp).
Proof.
  intros Hv Hd Hthin. unfold calculateQuoteLocally. rewrite Hv, Hd.
  destruct (negb (truthy_number (Some (Js.Fin vol)))
            || negb (present (Some dims)));
    [reflexivity|].
  pose proof (thin_infill_path dims vol d i w Hthin) as Hi.
  pose proof (thin_infill_path dims vol d i' w Hthin) as Hi'.
  cbn [same_outcome Sim.result time_hours material_grams speedScalingFactor].
  split; [|split; [|reflexivity]].
  - unfold Sim.time_hours, Sim.final_time_s, Sim.base_time_s,
      Sim.time_support_s, Sim.total_print_time_s, Sim.time_infill_s.
    rewrite Hi, Hi'. reflexivity.
  - unfold Sim.material_grams, Sim.final_volume_cm3, Sim.support_volume_cm3,
      Sim.model_volume_cm3, Sim.infill_volume_mm3.
    rewrite Hi, Hi'. reflexivity.
Qed.

(** A 100 x 100 x 1 mm plate of 0.5 cm3: the layer area is 500 mm2, two
    walls of 0.48 mm cover 384 mm2; with four walls they cover 768 mm2. *)
Lemma X10_thin_part_witness :
  Sim.avg_layer_area_mm2 (mkDimensions 100 100 1) (1 # 2)
    <= Sim.wall_area_per_layer_mm2 (mkDimensions 100 100 1) (4 # 10) 4
  /\ same_outcome
       (calculateQuoteLocally
          (mkValidation true [] (Some (Js.Fin (1 # 2)))
             (Some (mkDimensions 100 100 1))
             None)
          pla (4 # 10) (2 # 10) 15 4 default_settings 0)
       (calculateQuoteLocally
          (mkValidation true [] (Some (Js.Fin (1 # 2)))
             (Some (mkDimensions 100 100 1))
             None)
          pla (4 # 10) (2 # 10) 50 4 default_settings 0).
Proof.
  split; [discriminate|].
  apply (X10_thin_part_ignores_infill _ (1 # 2) (mkDimensions 100 100 1));
    [reflexivity | reflexivity | discriminate].
Defined.

(** X11. For positive geometry and physically meaningful parameters the
    simulator returns, and what it returns is a positive time, a positive
    mass and a speed scaling factor in (0, 1]. *)
Theorem X11_quote_is_positive (v : ValidationResult)
  (vol : Q) (dims : Dimensions) (m : Material) (n l i w : Q) (s : Settings)
  (sp : Q) :
  volume_cm3 v = Some (Js.Fin vol) -> dimensions_mm v = Some dims ->
  0 < vol -> 0 < dim_x dims -> 0 < dim_y dims -> 0 < dim_z dims ->
  0 < n -> 0 < l -> 0 <= i -> 0 < w ->
  0 < speed_wall_mm_s s -> 0 < speed_infill_mm_s s ->
  0 < speed_top_bottom_mm_s s -> 0 < speed_travel_mm_s s ->
  0 < acceleration_overhead_factor s ->
  speed_modifier_percent m < 100 ->
  0 < density_g_cm3 m ->
  (forall rate, max_flow_rate_mm3_s m = Some rate -> 0 <= rate) ->
  0 <= sp ->
  exists r,
    calculateQuoteLocally v m n l i w s sp = Returned r
    /\ 0 < time_hours r /\ 0 < material_grams r
    /\ 0 < speedScalingFactor r <= 1.
Proof.
  intros Hv Hd Hvol Hx Hy Hz Hn Hl Hi Hw Hwall Hinfill Htop Htravel Hacc Hmod
    Hden Hflow Hsp.
  pose proof (total_print_time_pos dims vol m n l i w s Hvol Hx Hy Hz Hn Hl Hi
                Hw Hwall Hinfill Htop Hflow) as Hprint.
  pose proof (model_volume_pos dims vol n l i w Hvol Hx Hy Hz Hn Hl Hi Hw)
    as Hmodel.
  pose proof (speed_modifier_pos m Hmod) as Hmodifier.
  exists (Sim.result dims vol m n l i w s sp).
  unfold calculateQuoteLocally. rewrite Hv, Hd, (truthy_number_positive vol Hvol).
  cbn [present negb orb]. split; [reflexivity|].
  cbn [Sim.result time_hours material_grams speedScalingFactor].
  assert (Hpercent : 0 <= sp / 100) by (apply Qdiv_nonneg; [exact Hsp | reflexivity]).
  split; [|split; [|apply speedScalingFactor_range; exact Hflow]].
  - unfold Sim.time_hours, Sim.final_time_s.
    apply Qdiv_pos; [|reflexivity].
    apply Qmult_lt_0_compat; [|exact Hmodifier].
    apply Qmult_lt_0_compat; [|exact Hacc].
    unfold Sim.base_time_s, Sim.time_support_s.
    assert (0 <= Sim.time_travel_s dims l s).
    { unfold Sim.time_travel_s, Sim.num_layers.
      apply Qdiv_nonneg; [|exact Htravel].
      apply Qmult_le_0_compat; [apply Qdiv_nonneg; lra | lra]. }
    assert (0 <= Sim.total_print_time_s dims vol m n l i w s * (sp / 100))
      by (apply Qmult_le_0_compat; lra).
    lra.
  - unfold Sim.material_grams, Sim.material_density_g_cm3.
    apply Qmult_lt_0_compat; [|exact Hden].
    unfold Sim.final_volume_cm3, Sim.support_volume_cm3.
    assert (0 <= Sim.model_volume_cm3 dims vol n l i w * (sp / 100))
      by (apply Qmult_le_0_compat; lra).
    lra.
Qed.

Lemma X11_quote_witness :
  exists r,
    calculateQuoteLocally cube pla (4 # 10) (2 # 10) 20 2 default_settings 10
      = Returned r
    /\ 0 < time_hours r /\ 0 < material_grams r
    /\ 0 < speedScalingFactor r <= 1.
Proof.
  refine (X11_quote_is_positive cube 1000 cube_dims pla
            (4 # 10) (2 # 10) 20 2 default_settings 10 eq_refl eq_refl
            _ _ _ _ _ _ _ _ _ _ _ _ _ _ _ _ _);
    try reflexivity; try discriminate.
  intros rate H. injection H as <-. discriminate.
Defined.

(** ** The quote handler *)


(** ** Rounding of prices and of the time *)

Lemma round_toman_bounds p : p <= round_toman p < p + 1000.
Proof.
  unfold round_toman.
  pose proof (Qle_ceiling (p / 1000)) as Hle.
  pose proof (Qceiling_lt (p / 1000)) as Hlt.
  unfold Z.sub in Hlt. rewrite inject_Z_plus in Hlt.
  assert (Hone : inject_Z (- (1)) == - (1)) by reflexivity.
  rewrite Hone in Hlt.
  assert (Hp : p / 1000 == p * (1 # 1000)) by field.
  generalize dependent (inject_Z (Qceiling (p / 1000))). intros c Hle Hlt.
  generalize dependent (p / 1000). intros q Hp Hle Hlt.
  lra.
Qed.

Lemma round_usd_bounds p :
  Qabs p < inject_Z (10 ^ 21) -> Qabs (round_usd p - p) <= 1 # 200.
Proof.
  intros Hsmall. unfold round_usd.
  replace (Qle_bool (inject_Z (10 ^ 21)) (Qabs p)) with false
    by (symmetry; apply not_true_iff_false; rewrite Qle_bool_iff; lra).
  pose proof (Qfloor_le (Qabs p * 100 + (1 # 2))) as Hle.
  pose proof (Qlt_floor (Qabs p * 100 + (1 # 2))) as Hlt.
  rewrite inject_Z_plus in Hlt. change (inject_Z 1) with 1 in Hlt.
  set (n := inject_Z (Qfloor (Qabs p * 100 + (1 # 2)))) in *.
  assert (Hn : n / 100 - Qabs p <= 1 # 200 /\ - (1 # 200) <= n / 100 - Qabs p).
  { assert (n / 100 == n * (1 # 100)) by (field). lra. }
  destruct (Qlt_bool p 0) eqn:Hneg.
  - apply Qlt_bool_iff in Hneg.
    rewrite (Qabs_neg p) in Hn by lra.
    apply Qabs_Qle_condition. lra.
  - apply Qlt_bool_false_iff in Hneg.
    rewrite (Qabs_pos p) in Hn by lra.
    apply Qabs_Qle_condition. lra.
Qed.

Lemma round_price_nonneg language p : 0 <= p -> 0 <= round_price language p.
Proof.
  intros Hp. destruct language; cbn [round_price].
  - pose proof (round_toman_bounds p). lra.
  - unfold round_usd.
    destruct (Qle_bool (inject_Z (10 ^ 21)) (Qabs p)); [exact Hp|].
    replace (Qlt_bool p 0) with false
      by (symmetry; apply Qlt_bool_false_iff; exact Hp).
    apply Qdiv_nonneg; [|reflexivity].
    change 0 with (inject_Z 0). rewrite <- Zle_Qle.
    rewrite <- (Qfloor_Z 0). apply Qfloor_resp_le.
    rewrite (Qabs_pos p Hp). change (inject_Z 0) with 0. lra.
Qed.

(** X13. The two price roundings.  In toman the price goes up to the next
    multiple of 1000: it is never below the exact amount and less than
    1000 above it.  In dollars (below 1e21) it is within half a cent of
    the exact amount.  Either way an amount that is not negative stays so. *)
Theorem X13_price_rounding (language : Language) (p : Q) :
  (exists k : Z, round_toman p == inject_Z k * 1000)
  /\ p <= round_toman p < p + 1000
  /\ (Qabs p < inject_Z (10 ^ 21) -> Qabs (round_usd p - p) <= 1 # 200)
  /\ (0 <= p -> 0 <= round_price language p).
Proof.
  split; [exists (Qceiling (p / 1000)); reflexivity|].
  split; [apply round_toman_bounds|].
  split; [apply round_usd_bounds | apply round_price_nonneg].
Qed.

Lemma X13_price_rounding_witness :
  Qabs (973234 # 1000) < inject_Z (10 ^ 21)
  /\ Qabs (round_usd (973234 # 1000) - (973234 # 1000)) <= 1 # 200.
Proof.
  split; [reflexivity|].
  apply (proj1 (proj2 (proj2 (X13_price_rounding en (973234 # 1000))))).
  reflexivity.
Defined.

Lemma js_round_bounds x :
  inject_Z (js_round x) <= x + (1 # 2) /\ x - (1 # 2) < inject_Z (js_round x).
Proof.
  unfold js_round.
  pose proof (Qfloor_le (x + (1 # 2))) as Hle.
  pose proof (Qlt_floor (x + (1 # 2))) as Hlt.
  rewrite inject_Z_plus in Hlt.
  assert (Hone : inject_Z 1 == 1) by reflexivity. rewrite Hone in Hlt.
  generalize dependent (inject_Z (Qfloor (x + (1 # 2)))). intros n Hle Hlt.
  lra.
Qed.

Lemma quote_fraction_bounds time :
  0 <= (time - inject_Z (quote_hours time)) * 60 < 60.
Proof.
  unfold quote_hours.
  pose proof (Qfloor_le time) as Hle.
  pose proof (Qlt_floor time) as Hlt.
  rewrite inject_Z_plus in Hlt.
  assert (Hone : inject_Z 1 == 1) by reflexivity. rewrite Hone in Hlt.
  generalize dependent (inject_Z (Qfloor time)). intros h Hle Hlt.
  lra.
Qed.

(** X14. The time shown with a quote: whole hours rounded down and the
    rest rounded to the nearest minute.  The two together are within half
    a minute of the exact time and the minutes lie between 0 and 60; they
    are 60 (as in 1 h 60 min) exactly in the last half minute of an hour. *)
Theorem X14_time_display (time : Q) :
  (0 <= quote_minutes time <= 60)%Z
  /\ Qabs (inject_Z (60 * quote_hours time + quote_minutes time) - 60 * time)
     <= 1 # 2
  /\ (quote_minutes time = 60%Z
      <-> inject_Z (quote_hours time) + (119 # 120) <= time).
Proof.
  pose proof (quote_fraction_bounds time) as [Hf0 Hf60].
  pose proof (js_round_bounds ((time - inject_Z (quote_hours time)) * 60))
    as [Hr1 Hr2].
  fold (quote_minutes time) in Hr1, Hr2.
  assert (Hlow : (0 <= quote_minutes time)%Z).
  { unfold quote_minutes, js_round. rewrite <- (Qfloor_Z 0).
    apply Qfloor_resp_le. change (inject_Z 0) with 0. lra. }
  assert (Hhigh : (quote_minutes time <= 60)%Z).
  { apply Z.lt_succ_r. rewrite Zlt_Qlt.
    change (inject_Z (Z.succ 60)) with 61. lra. }
  split; [split; assumption|]. split.
  - rewrite inject_Z_plus, inject_Z_mult.
    assert (H60 : inject_Z 60 == 60) by reflexivity. rewrite H60.
    apply Qabs_Qle_condition.
    generalize dependent (inject_Z (quote_minutes time)).
    generalize dependent (inject_Z (quote_hours time)).
    intros h Hf0 Hf60 mi Hr1 Hr2. lra.
  - split.
    + intros Hsixty. rewrite Hsixty in Hr1.
      change (inject_Z 60) with 60 in Hr1.
      generalize dependent (inject_Z (quote_hours time)). intros h. lra.
    + intros Hlate. apply Z.le_antisymm; [exact Hhigh|].
      unfold quote_minutes, js_round.
      apply Z.le_trans with (Qfloor (inject_Z 60));
        [rewrite Qfloor_Z; apply Z.le_refl|].
      apply Qfloor_resp_le. change (inject_Z 60) with 60.
      generalize dependent (inject_Z (quote_hours time)). intros h. lra.
Qed.

Example time_display_sixty_minutes :
  quote_hours (19999 # 10000) = 1%Z /\ quote_minutes (19999 # 10000) = 60%Z.
Proof. split; reflexivity. Qed.

(** X15. For a single item with no discount (a lookup that yields 0 %),
    the final price of the pricing memo is the per-item price that the
    quote handler stored: the two places that round a price agree. *)
Theorem X15_single_item_price_agrees (t_time_format : Z -> Z -> string)
  (language : Language) (material : Material) (settings : Settings)
  (raw : RawQuote) (tiers : list PricingTier) :
  discountPercent tiers (time_hours raw * 1) == 0 ->
  finalPrice
    (fst (finalPriceMemo (Some raw) 1
            (Some (formatQuote t_time_format language material settings raw))
            tiers language))
  == quote_price (formatQuote t_time_format language material settings raw).
Proof.
  intros Hzero. rewrite finalPriceMemo_result by reflexivity.
  cbv zeta. cbn [finalPrice]. unfold formatQuote.
  cbn [quote_price material_cost machine_time_cost].
  apply round_price_comp. rewrite Hzero. field.
Qed.

Lemma X15_single_item_witness :
  discountPercent default_tiers (time_hours (mkRawQuote 9 306 1) * 1) == 0
  /\ finalPrice
       (fst (finalPriceMemo (Some (mkRawQuote 9 306 1)) 1
               (Some (formatQuote (fun _ _ => EmptyString) fa pla
                        default_settings (mkRawQuote 9 306 1)))
               default_tiers fa))
     == quote_price (formatQuote (fun _ _ => EmptyString) fa pla
                       default_settings (mkRawQuote 9 306 1)).
Proof.
  split; [reflexivity|].
  apply (X15_single_item_price_agrees (fun _ _ => EmptyString) fa pla
           default_settings (mkRawQuote 9 306 1) default_tiers).
  reflexivity.
Defined.

(** ** The tier table in another order, and the memo run again *)

Lemma distinct_from_hours_keyed tiers :
  distinct_from_hours tiers = true ->
  forall before t between u after,
    tiers = before ++ t :: between ++ u :: after ->
    ~ from_hours t == from_hours u.
Proof.
  induction tiers as [|a tiers IH]; intros Hd before t between u after E.
  - destruct before; discriminate.
  - cbn [distinct_from_hours] in Hd. apply andb_prop in Hd as [Ha Hd].
    destruct before as [|b before]; cbn [app] in E; injection E as -> ->.
    + rewrite forallb_forall in Ha.
      specialize (Ha u (in_elt u between after)).
      apply negb_true_iff in Ha. intros Heq. apply Qeq_bool_iff in Heq.
      congruence.
    + eapply IH; eauto.
Qed.

(** Among tiers with distinct starts, a tier is determined by its start. *)
Lemma distinct_from_hours_inj tiers t u :
  distinct_from_hours tiers = true ->
  In t tiers -> In u tiers -> from_hours t == from_hours u -> t = u.
Proof.
  intros Hd Ht Hu Heq.
  apply in_split in Ht as (l1 & l2 & ->).
  apply in_app_or in Hu as [Hu|[Hu|Hu]]; [|exact Hu|].
  - apply in_split in Hu as (l3 & l4 & ->).
    exfalso. rewrite <- app_assoc in Hd. cbn [app] in Hd.
    apply (distinct_from_hours_keyed _ Hd l3 u l4 t l2 eq_refl).
    symmetry. exact Heq.
  - apply in_split in Hu as (l3 & l4 & ->).
    exfalso. exact (distinct_from_hours_keyed _ Hd l1 t l3 u l4 eq_refl Heq).
Qed.

Lemma sorted_from_unique : forall l l',
  (forall t u, In t l -> In u l -> from_hours t == from_hours u -> t = u) ->
  Sorted from_le l -> Sorted from_le l' -> Permutation l l' -> l = l'.
Proof.
  induction l as [|a r IH]; intros l' Hkey Hs Hs' Hperm.
  - apply Permutation_nil in Hperm. congruence.
  - destruct l' as [|a' r'];
      [apply Permutation_sym, Permutation_nil in Hperm; discriminate|].
    assert (Ha : a = a').
    { apply Sorted_StronglySorted in Hs; [|exact from_le_transitive].
      apply Sorted_StronglySorted in Hs'; [|exact from_le_transitive].
      apply StronglySorted_inv in Hs as [_ Hall].
      apply StronglySorted_inv in Hs' as [_ Hall'].
      rewrite Forall_forall in Hall, Hall'.
      assert (Hin' : In a' (a :: r))
        by (apply (Permutation_in _ (Permutation_sym Hperm)); left; reflexivity).
      assert (Hin : In a (a' :: r'))
        by (apply (Permutation_in _ Hperm); left; reflexivity).
      destruct Hin' as [E|Hin']; [exact E|].
      destruct Hin as [E|Hin]; [symmetry; exact E|].
      apply Hkey; [left; reflexivity | right; exact Hin'|].
      specialize (Hall a' Hin'). specialize (Hall' a Hin).
      unfold from_le in *. lra. }
    subst a'. f_equal. apply IH.
    + intros t u Ht Hu. apply Hkey; right; assumption.
    + apply Sorted_inv in Hs. tauto.
    + apply Sorted_inv in Hs'. tauto.
    + apply Permutation_cons_inv in Hperm. exact Hperm.
Qed.

Lemma sort_tiers_order_independent tiers tiers' :
  Permutation tiers tiers' -> distinct_from_hours tiers = true ->
  sort_tiers tiers = sort_tiers tiers'.
Proof.
  intros Hperm Hd. apply sorted_from_unique.
  - intros t u Ht Hu. apply (distinct_from_hours_inj tiers); [exact Hd| |].
    + apply (Permutation_in _ (Permutation_sym (sort_tiers_perm tiers)) Ht).
    + apply (Permutation_in _ (Permutation_sym (sort_tiers_perm tiers)) Hu).
  - apply sort_tiers_sorted.
  - apply sort_tiers_sorted.
  - rewrite <- (sort_tiers_perm tiers), <- (sort_tiers_perm tiers').
    exact Hperm.
Qed.

(** X16. When no two tiers start at the same hour, the order in which the
    tiers are stored does not matter: any rearrangement of the table
    gives the same price summary. *)
Theorem X16_price_ignores_tier_order (rawQuote : option RawQuote)
  (quantity : Q) (quoteData : option QuoteData)
  (tiers tiers' : list PricingTier) (language : Language) :
  Permutation tiers tiers' -> distinct_from_hours tiers = true ->
  fst (finalPriceMemo rawQuote quantity quoteData tiers language)
  = fst (finalPriceMemo rawQuote quantity quoteData tiers' language).
Proof.
  intros Hperm Hd. unfold finalPriceMemo.
  destruct rawQuote; [|reflexivity]. destruct quoteData; [|reflexivity].
  destruct (Qeq_bool quantity 0); [reflexivity|].
  cbn [fst]. rewrite (sort_tiers_order_independent tiers tiers' Hperm Hd).
  reflexivity.
Qed.

Lemma X16_tier_order_witness :
  Permutation scenario_tiers unsorted_tiers
  /\ distinct_from_hours scenario_tiers = true
  /\ fst (finalPriceMemo (Some long_job) 1 (Some long_job_quote)
            scenario_tiers en)
     = fst (finalPriceMemo (Some long_job) 1 (Some long_job_quote)
              unsorted_tiers en).
Proof.
  split; [apply perm_swap|]. split; [reflexivity|].
  apply X16_price_ignores_tier_order; [apply perm_swap | reflexivity].
Defined.

(** With two tiers that start at the same hour the stored order decides. *)
Example tied_tiers_order_matters :
  discountPercent tied_tiers 100 = 10
  /\ discountPercent (rev tied_tiers) 100 = 20.
Proof. split; reflexivity. Qed.

(** X17. Running the price computation again on the table it left behind
    changes nothing: the same summary comes out and the table stays as
    the first run left it. *)
Theorem X17_price_recomputation_is_stable (rawQuote : option RawQuote)
  (quantity : Q) (quoteData : option QuoteData)
  (tiers : list PricingTier) (language : Language) :
  finalPriceMemo rawQuote quantity quoteData
    (snd (finalPriceMemo rawQuote quantity quoteData tiers language)) language
  = finalPriceMemo rawQuote quantity quoteData tiers language.
Proof.
  unfold finalPriceMemo.
  destruct rawQuote; [|reflexivity]. destruct quoteData; [|reflexivity].
  destruct (Qeq_bool quantity 0); [reflexivity|].
  cbn [snd].
  rewrite (sort_tiers_sorted_id (sort_tiers tiers) (sort_tiers_sorted tiers)).
  reflexivity.
Qed.

Lemma discountPercent_from_table tiers h :
  discountPercent tiers h = 0
  \/ exists t, In t tiers /\ discountPercent tiers h = discount_percent t.
Proof.
  unfold discountPercent, applicableTier.
  destruct (find (tier_applies h) (sort_tiers tiers)) as [t|] eqn:E;
    [|left; reflexivity].
  right. exists t. split; [|reflexivity].
  apply find_some in E as [Hin _].
  apply (Permutation_in _ (Permutation_sym (sort_tiers_perm tiers)) Hin).
Qed.

(** X18. When every tier's discount lies between 0 and 100 % and the
    per-item costs and the quantity are not negative, the discount is
    never negative and never more than the total machine cost, and the
    final price is not negative. *)
Theorem X18_discount_within_machine_cost (rawQuote : RawQuote)
  (quoteData : QuoteData) (quantity : Q) (tiers : list PricingTier)
  (language : Language) :
  (forall t, In t tiers -> 0 <= discount_percent t <= 100) ->
  0 <= material_cost quoteData -> 0 <= machine_time_cost quoteData ->
  0 <= quantity ->
  let out :=
    fst (finalPriceMemo (Some rawQuote) quantity (Some quoteData) tiers
           language) in
  0 <= discountAmount out <= totalMachineCost out
  /\ 0 <= totalMaterialCost out
  /\ 0 <= finalPrice out.
Proof.
  intros Htiers Hmat Hmach Hq out. subst out.
  destruct (Qeq_bool quantity 0) eqn:Hzero.
  - rewrite finalPriceMemo_no_quantity by exact Hzero. cbn. lra.
  - rewrite finalPriceMemo_result by exact Hzero. cbv zeta.
    cbn [discountAmount totalMachineCost totalMaterialCost finalPrice].
    set (percent := discountPercent tiers (time_hours rawQuote * quantity)).
    assert (Hp : 0 <= percent <= 100).
    { destruct (discountPercent_from_table tiers
                  (time_hours rawQuote * quantity)) as [E|(t & Ht & E)];
        fold percent in E; rewrite E; [lra | auto]. }
    assert (Hfrac : 0 <= percent / 100 <= 1).
    { split; [apply Qdiv_nonneg; [tauto | reflexivity]|].
      apply Qle_shift_div_r; [reflexivity | lra]. }
    assert (Hmachine : 0 <= machine_time_cost quoteData * quantity)
      by (apply Qmult_le_0_compat; assumption).
    assert (Hmaterial : 0 <= material_cost quoteData * quantity)
      by (apply Qmult_le_0_compat; assumption).
    set (machine := machine_time_cost quoteData * quantity) in *.
    set (material := material_cost quoteData * quantity) in *.
    set (f := percent / 100) in *.
    assert (Hd0 : 0 <= machine * f) by (apply Qmult_le_0_compat; tauto).
    assert (Hd1 : machine * f <= machine).
    { rewrite <- (Qmult_1_r machine) at 2.
      destruct (Qle_lt_or_eq _ _ Hmachine) as [Hpos|Hz].
      - apply Qmult_le_l; [exact Hpos | tauto].
      - rewrite <- Hz. lra. }
    split; [split; assumption|]. split; [assumption|].
    apply round_price_nonneg. lra.
Qed.

Lemma X18_discount_witness :
  0 <= discountAmount
         (fst (finalPriceMemo (Some long_job) 1 (Some long_job_quote)
                 default_tiers en))
    <= totalMachineCost
         (fst (finalPriceMemo (Some long_job) 1 (Some long_job_quote)
                 default_tiers en)).
Proof.
  refine (proj1 (X18_discount_within_machine_cost long_job long_job_quote 1
                   default_tiers en _ _ _ _)); try discriminate.
  intros t Ht. cbn in Ht.
  destruct Ht as [<-|[<-|[<-|[<-|[]]]]]; split; discriminate.
Defined.

(** X19. The quantity field stores a whole number that is at least 1
    whatever was typed: the number typed when it is 1 or more, and 1 for
    zero, a negative number or text that is no number.  So a price is
    never computed for a quantity of zero from that field. *)
Theorem X19_quantity_at_least_one (parsed : option Z) :
  (1 <= quantity_of_input parsed)%Z
  /\ quantity_of_input parsed
     = match parsed with
       | Some z => Z.max 1 z
       | None => 1%Z
       end
  /\ Qeq_bool (inject_Z (quantity_of_input parsed)) 0 = false.
Proof.
  assert (Hone : (1 <= quantity_of_input parsed)%Z)
    by (unfold quantity_of_input; apply Z.le_max_l).
  split; [exact Hone|]. split.
  - unfold quantity_of_input. destruct parsed as [z|]; [|reflexivity].
    destruct (z =? 0)%Z eqn:E; [|reflexivity].
    apply Z.eqb_eq in E. subst z. reflexivity.
  - apply not_true_iff_false. rewrite Qeq_bool_iff.
    change 0 with (inject_Z 0). rewrite inject_Z_injective. lia.
Qed.

(** ** The tier table after it was saved and loaded *)

Lemma reloaded_bounded_applies h t e :
  to_hours t = Hours e ->
  tier_applies h (as_compared (json_roundtrip_tier t)) = tier_applies h t.
Proof.
  intros Hto. unfold tier_applies, as_compared, json_roundtrip_tier.
  cbn [from_hours to_hours stored_from stored_to]. rewrite Hto. reflexivity.
Qed.

Lemma reloaded_unbounded_never_applies h t :
  to_hours t = Infinity -> 0 <= h ->
  tier_applies h (as_compared (json_roundtrip_tier t)) = false.
Proof.
  intros Hto Hh. unfold tier_applies, as_compared, json_roundtrip_tier.
  cbn [from_hours to_hours stored_from stored_to]. rewrite Hto.
  cbn [below_bound].
  replace (Qlt_bool h 0) with false
    by (symmetry; apply Qlt_bool_false_iff; exact Hh).
  apply andb_false_r.
Qed.

Lemma reloaded_applies_original h t :
  0 <= h ->
  tier_applies h (as_compared (json_roundtrip_tier t)) = true ->
  tier_applies h t = true /\ exists e, to_hours t = Hours e.
Proof.
  intros Hh Happ. destruct (to_hours t) as [e|] eqn:Hto.
  - rewrite (reloaded_bounded_applies h t e Hto) in Happ. eauto.
  - rewrite (reloaded_unbounded_never_applies h t Hto Hh) in Happ.
    discriminate.
Qed.

(** In a well-formed table the tier that serves an hour value is the only
    one that applies to it. *)
Lemma well_formed_unique tiers h t u :
  well_formed_tiers tiers -> 0 <= h ->
  In t tiers -> In u tiers ->
  tier_applies h t = true -> tier_applies h u = true -> t = u.
Proof.
  intros Hwf Hh Ht Hu Happ_t Happ_u. specialize (Hwf h Hh).
  assert (Ht' : In t (filter (tier_applies h) tiers))
    by (apply filter_In; auto).
  assert (Hu' : In u (filter (tier_applies h) tiers))
    by (apply filter_In; auto).
  destruct (filter (tier_applies h) tiers) as [|x [|y rest]];
    try discriminate.
  destruct Ht' as [<-|[]]. destruct Hu' as [<-|[]]. reflexivity.
Qed.

(** X20. Saving the settings and loading them back writes an unbounded
    [to_hours] as null, and in the lookup's comparison null counts as 0.
    For a well-formed table and a non-negative hour value: if the tier
    that served it was bounded, the discount after the round trip is the
    same; if it was the unbounded last tier, no tier applies any more and
    the discount is 0. *)
Theorem X20_reloaded_table_loses_unbounded_tier (tiers : list PricingTier)
  (h : Q) (t : PricingTier) :
  well_formed_tiers tiers -> 0 <= h ->
  applicableTier tiers h = Some t ->
  discountPercent (reloaded_tiers tiers) h
  = match to_hours t with
    | Hours _ => discount_percent t
    | Infinity => 0
    end.
Proof.
  intros Hwf Hh Ht. unfold applicableTier in Ht.
  apply find_some in Ht as [Hin Happ].
  apply (Permutation_in _ (Permutation_sym (sort_tiers_perm tiers))) in Hin.
  unfold discountPercent, applicableTier.
  destruct (find (tier_applies h) (sort_tiers (reloaded_tiers tiers)))
    as [u|] eqn:E.
  - apply find_some in E as [Hu Happ_u].
    apply (Permutation_in _ (Permutation_sym (sort_tiers_perm _))) in Hu.
    apply in_map_iff in Hu as (u0 & <- & Hu0).
    destruct (reloaded_applies_original h u0 Hh Happ_u) as [Happ0 [e He]].
    assert (u0 = t)
      by (apply (well_formed_unique tiers h); assumption).
    subst u0. rewrite He. reflexivity.
  - destruct (to_hours t) as [e|] eqn:Hto; [|reflexivity].
    exfalso.
    assert (Hr : In (as_compared (json_roundtrip_tier t))
                    (sort_tiers (reloaded_tiers tiers))).
    { apply (Permutation_in _ (sort_tiers_perm _)).
      apply in_map_iff. exists t. auto. }
    pose proof (find_none _ _ E _ Hr) as Hfalse.
    rewrite (reloaded_bounded_applies h t e Hto) in Hfalse. congruence.
Qed.

Lemma X20_reloaded_witness :
  well_formed_tiers default_tiers /\ 0 <= 3000
  /\ applicableTier default_tiers 3000 = Some (mkTier "tier4" 2500 Infinity 30)
  /\ discountPercent default_tiers 3000 = 30
  /\ discountPercent (reloaded_tiers default_tiers) 3000 = 0.
Proof.
  assert (Hwf : well_formed_tiers default_tiers)
    by (apply chained_well_formed; reflexivity).
  split; [exact Hwf|]. split; [discriminate|]. split; [reflexivity|].
  split; [reflexivity|].
  apply (X20_reloaded_table_loses_unbounded_tier default_tiers 3000
           (mkTier "tier4" 2500 Infinity 30) Hwf); [discriminate | reflexivity].
Defined.

(** ** Print options: the material that fits *)

Lemma find_material_by_id materials f :
  NoDup (map material_id materials) -> In f materials ->
  find (fun m => String.eqb (material_id m) (material_id f)) materials = Some f.
Proof.
  induction materials as [|a materials IH]; intros Hnd Hin; [destruct Hin|].
  cbn [map] in Hnd. apply NoDup_cons_iff in Hnd as [Hfresh Hnd].
  cbn [find]. destruct (String.eqb (material_id a) (material_id f)) eqn:E.
  - apply String.eqb_eq in E. destruct Hin as [->|Hin]; [reflexivity|].
    exfalso. apply Hfresh. rewrite E. apply in_map. exact Hin.
  - destruct Hin as [->|Hin]; [rewrite String.eqb_refl in E; discriminate|].
    apply IH; assumption.
Qed.

(** X21. With material ids that are all different, a selected material
    from the list and at least one material whose build volume holds the
    part: once the auto-switch effect has run, the selected id names a
    material that is not too small for the part. *)
Theorem X21_selected_material_fits (dimensions : option Dimensions)
  (materials : list Material) (selected fit : Material) :
  NoDup (map material_id materials) ->
  In selected materials -> In fit materials ->
  isMaterialDisabled dimensions fit = false ->
  exists m,
    find (fun m => String.eqb (material_id m)
                     (autoSwitchMaterial dimensions materials
                        (material_id selected)))
         materials = Some m
    /\ isMaterialDisabled dimensions m = false.
Proof.
  intros Hnd Hsel Hfit Hok. unfold autoSwitchMaterial.
  rewrite (find_material_by_id materials selected Hnd Hsel).
  destruct (isMaterialDisabled dimensions selected) eqn:Hdis.
  - destruct (find_exists (fun m => negb (isMaterialDisabled dimensions m))
                materials fit Hfit) as [first Hfirst];
      [rewrite Hok; reflexivity|].
    rewrite Hfirst. apply find_some in Hfirst as [Hin Hvalid].
    exists first. split; [apply find_material_by_id; assumption|].
    apply negb_true_iff. exact Hvalid.
  - exists selected. split; [apply find_material_by_id; assumption|].
    exact Hdis.
Qed.

(** A 300 mm part: ABS (200 mm) is selected, PLA (380 mm) holds it. *)
Lemma X21_material_witness :
  exists m,
    find (fun m => String.eqb (material_id m)
                     (autoSwitchMaterial (Some (mkDimensions 300 100 100))
                        [abs_material; pla] (material_id abs_material)))
         [abs_material; pla] = Some m
    /\ isMaterialDisabled (Some (mkDimensions 300 100 100)) m = false.
Proof.
  apply (X21_selected_material_fits (Some (mkDimensions 300 100 100))
           [abs_material; pla] abs_material pla).
  - repeat constructor; cbn; intuition discriminate.
  - left. reflexivity.
  - right. left. reflexivity.
  - reflexivity.
Defined.

(** With two materials under one id the switch can stay on the one that
    is too small. *)
Example duplicate_id_defeats_switch :
  find (fun m => String.eqb (material_id m)
                   (autoSwitchMaterial (Some (mkDimensions 300 100 100))
                      [abs_material;
                       mkMaterial "abs" "ABS XL" (mkPrice 1000000 17)
                         (104 # 100) (mkDimensions 400 400 400) 0 (Some 18)]
                      "abs"))
       [abs_material;
        mkMaterial "abs" "ABS XL" (mkPrice 1000000 17) (104 # 100)
          (mkDimensions 400 400 400) 0 (Some 18)]
  = Some abs_material.
Proof. reflexivity. Qed.

(** ** Print options: the layer height the nozzle allows *)

Section SortBy.

Context {A : Type} (key : A -> Q).

Lemma insert_by_perm x l : Permutation (x :: l) (insert_by key x l).
Proof.
  induction l as [|y l IH]; cbn [insert_by]; [reflexivity|].
  destruct (Qle_bool (key x) (key y)); [reflexivity|].
  rewrite perm_swap. apply perm_skip. exact IH.
Qed.

Lemma sort_by_perm l : Permutation l (sort_by key l).
Proof.
  induction l as [|x l IH]; cbn [sort_by]; [constructor|].
  rewrite <- insert_by_perm. apply perm_skip. exact IH.
Qed.

Lemma insert_by_all_le x l z :
  key z <= key x -> Forall (key_le key z) l ->
  Forall (key_le key z) (insert_by key x l).
Proof.
  intros Hx Hl.
  apply (Permutation_Forall (insert_by_perm x l)). constructor; assumption.
Qed.

(** The first element of the sorted list has the least key. *)
Lemma sort_by_head_least l : forall x rest,
  sort_by key l = x :: rest -> Forall (key_le key x) l.
Proof.
  induction l as [|a l IH]; intros x rest E; [constructor|].
  cbn [sort_by] in E.
  destruct (sort_by key l) as [|b sorted] eqn:Es.
  - cbn [insert_by] in E. injection E as <- <-.
    assert (l = []).
    { pose proof (sort_by_perm l) as Hp. rewrite Es in Hp.
      apply Permutation_sym, Permutation_nil in Hp. exact Hp. }
    subst l. repeat constructor. unfold key_le. lra.
  - specialize (IH b sorted eq_refl). cbn [insert_by] in E.
    destruct (Qle_bool (key a) (key b)) eqn:Hab.
    + injection E as <- <-. apply Qle_bool_iff in Hab.
      constructor; [unfold key_le; lra|].
      eapply Forall_impl; [|exact IH].
      intros y Hy. unfold key_le in *. lra.
    + injection E as <- <-.
      constructor; [|exact IH].
      unfold key_le. apply Qlt_le_weak, Qnot_le_lt.
      rewrite <- Qle_bool_iff. congruence.
Qed.

End SortBy.

Lemma includes_iff values x :
  includes values x = true <-> exists v, In v values /\ x == v.
Proof.
  unfold includes. rewrite existsb_exists.
  split; intros (v & Hin & Hv); exists v; split; auto;
    apply Qeq_bool_iff; exact Hv.
Qed.

Lemma includes_comp values x y : x == y -> includes values x = includes values y.
Proof.
  intros Heq. unfold includes.
  induction values as [|v values IH]; [reflexivity|].
  cbn [existsb]. rewrite IH, Heq. reflexivity.
Qed.

Lemma layer_height_out_of_range_value nozzle a b :
  option_value a == option_value b ->
  layer_height_out_of_range nozzle a = layer_height_out_of_range nozzle b.
Proof.
  intros Heq. unfold layer_height_out_of_range, Qlt_bool.
  rewrite Heq. reflexivity.
Qed.

(** A value is in the disabled list exactly when it is the value of a
    layer height that is out of range for the nozzle. *)
Lemma disabled_values_iff nozzles layerHeights id nozzle x :
  find (fun n => String.eqb (option_id n) id) nozzles = Some nozzle ->
  includes (disabledLayerHeightValuesByNozzle nozzles layerHeights id) x = true
  <-> exists lh, In lh layerHeights
                 /\ layer_height_out_of_range (option_value nozzle) lh = true
                 /\ x == option_value lh.
Proof.
  intros Hfind. unfold disabledLayerHeightValuesByNozzle. rewrite Hfind.
  rewrite includes_iff. split.
  - intros (v & Hin & Hv). apply in_map_iff in Hin as (lh & <- & Hlh).
    apply filter_In in Hlh as [Hlh Hout]. eauto.
  - intros (lh & Hlh & Hout & Hx). exists (option_value lh).
    split; [|exact Hx]. apply in_map, filter_In. auto.
Qed.

Lemma disabled_value_of_option nozzles layerHeights id nozzle lh :
  find (fun n => String.eqb (option_id n) id) nozzles = Some nozzle ->
  In lh layerHeights ->
  includes (disabledLayerHeightValuesByNozzle nozzles layerHeights id)
           (option_value lh)
  = layer_height_out_of_range (option_value nozzle) lh.
Proof.
  intros Hfind Hlh.
  destruct (layer_height_out_of_range (option_value nozzle) lh) eqn:Hout.
  - apply (disabled_values_iff _ _ _ _ _ Hfind). exists lh.
    split; [exact Hlh|]. split; [exact Hout | reflexivity].
  - apply not_true_iff_false. intros Hinc.
    apply (disabled_values_iff _ _ _ _ _ Hfind) in Hinc
      as (lh' & _ & Hout' & Heq).
    rewrite (layer_height_out_of_range_value _ lh lh' Heq) in Hout.
    congruence.
Qed.

(** X22. With the selected nozzle in the list, the selected layer height
    one of the offered values and at least one offered value within
    [0.1 mm, 75 % of the nozzle diameter]: once the auto-select effect has
    run, the selected layer height is an offered value within that range,
    and no offered value within the range is closer to the previous
    selection. *)
Theorem X22_layer_height_after_nozzle_change
  (nozzles layerHeights : list SettingOption) (selectedNozzleId : string)
  (nozzle current allowed : SettingOption) (selectedLayerHeight : Q) :
  find (fun n => String.eqb (option_id n) selectedNozzleId) nozzles
    = Some nozzle ->
  In current layerHeights -> option_value current == selectedLayerHeight ->
  In allowed layerHeights ->
  layer_height_out_of_range (option_value nozzle) allowed = false ->
  exists lh,
    In lh layerHeights
    /\ autoSelectLayerHeight layerHeights
         (disabledLayerHeightValuesByNozzle nozzles layerHeights
            selectedNozzleId) selectedLayerHeight
       == option_value lh
    /\ 1 # 10 <= option_value lh <= option_value nozzle * (75 # 100)
    /\ forall other,
         In other layerHeights ->
         layer_height_out_of_range (option_value nozzle) other = false ->
         Qabs (option_value lh - selectedLayerHeight)
         <= Qabs (option_value other - selectedLayerHeight).
Proof.
  intros Hfind Hcur Hval Hallowed Hok.
  set (disabled := disabledLayerHeightValuesByNozzle nozzles layerHeights
                     selectedNozzleId).
  assert (Hrange : forall lh,
             layer_height_out_of_range (option_value nozzle) lh = false ->
             1 # 10 <= option_value lh <= option_value nozzle * (75 # 100)).
  { intros lh H. unfold layer_height_out_of_range in H.
    apply orb_false_elim in H as [H1 H2].
    apply Qlt_bool_false_iff in H1, H2. auto. }
  assert (Hsel : includes disabled selectedLayerHeight
                 = layer_height_out_of_range (option_value nozzle) current).
  { rewrite <- (disabled_value_of_option nozzles layerHeights
                  selectedNozzleId nozzle current Hfind Hcur).
    apply includes_comp. symmetry. exact Hval. }
  unfold autoSelectLayerHeight. fold disabled. rewrite Hsel.
  destruct (layer_height_out_of_range (option_value nozzle) current) eqn:Hout.
  - cbv zeta.
    set (available := filter (fun lh => negb (includes disabled (option_value lh)))
                        layerHeights).
    assert (Hav : forall lh, In lh available
                <-> In lh layerHeights
                    /\ layer_height_out_of_range (option_value nozzle) lh = false).
    { intros lh. unfold available. rewrite filter_In. split.
      - intros [Hin Hneg]. split; [exact Hin|]. unfold disabled in Hneg.
        rewrite (disabled_value_of_option _ _ _ _ _ Hfind Hin) in Hneg.
        apply negb_true_iff. exact Hneg.
      - intros [Hin Hfine]. split; [exact Hin|]. unfold disabled.
        rewrite (disabled_value_of_option _ _ _ _ _ Hfind Hin), Hfine.
        reflexivity. }
    set (distance := fun lh : SettingOption =>
                       Qabs (option_value lh - selectedLayerHeight)).
    destruct (sort_by distance available) as [|closest rest] eqn:Hsort.
    + exfalso.
      assert (Hin : In allowed available) by (apply Hav; auto).
      apply (Permutation_in _ (sort_by_perm distance available)) in Hin.
      rewrite Hsort in Hin. destruct Hin.
    + assert (Hin : In closest available).
      { apply (Permutation_in _
                 (Permutation_sym (sort_by_perm distance available))).
        rewrite Hsort. left. reflexivity. }
      apply Hav in Hin as [Hin Hfine].
      exists closest. split; [exact Hin|]. split; [reflexivity|].
      split; [apply Hrange; exact Hfine|].
      intros other Hother Hother_ok.
      pose proof (sort_by_head_least distance available closest rest Hsort)
        as Hleast.
      rewrite Forall_forall in Hleast.
      apply (Hleast other). apply Hav. auto.
  - exists current. split; [exact Hcur|].
    split; [symmetry; exact Hval|]. split; [apply Hrange; exact Hout|].
    intros other _ _. rewrite Hval.
    setoid_replace (selectedLayerHeight - selectedLayerHeight) with 0 by ring.
    apply Qabs_nonneg.
Qed.

(** From the 0.6 mm nozzle with 0.36 mm layers to the 0.25 mm nozzle: the
    limit is 0.1875 mm and 0.16 mm is the only height left. *)
Lemma X22_layer_height_witness :
  exists lh,
    In lh default_layerHeights
    /\ autoSelectLayerHeight default_layerHeights
         (disabledLayerHeightValuesByNozzle default_nozzles
            default_layerHeights "0.25") (36 # 100)
       == option_value lh
    /\ 1 # 10 <= option_value lh <= (25 # 100) * (75 # 100)
    /\ forall other,
         In other default_layerHeights ->
         layer_height_out_of_range (25 # 100) other = false ->
         Qabs (option_value lh - (36 # 100))
         <= Qabs (option_value other - (36 # 100)).
Proof.
  apply (X22_layer_height_after_nozzle_change default_nozzles
           default_layerHeights "0.25" (mkOption "0.25" "0.25mm" (25 # 100))
           (mkOption "0.36" "0.36mm" (36 # 100))
           (mkOption "0.16" "0.16mm" (16 # 100)) (36 # 100)).
  - reflexivity.
  - cbn. tauto.
  - reflexivity.
  - left. reflexivity.
  - reflexivity.
Defined.

Example layer_height_switch :
  autoSelectLayerHeight default_layerHeights
    (disabledLayerHeightValuesByNozzle default_nozzles default_layerHeights
       "0.25") (36 # 100) = 16 # 100.
Proof. reflexivity. Qed.

(** ** Removing a tier in the admin panel *)

Lemma filter_other_index_past {A : Type} (l : list A) : forall index i,
  (index < i)%nat -> filter_other_index index i l = l.
Proof.
  induction l as [|a l IH]; intros index i Hlt; [reflexivity|].
  cbn [filter_other_index].
  replace (i =? index)%nat with false by (symmetry; apply Nat.eqb_neq; lia).
  f_equal. apply IH. lia.
Qed.

Lemma filter_other_index_split {A : Type} (l : list A) : forall i k x,
  nth_error l k = Some x ->
  exists before after,
    l = before ++ x :: after
    /\ filter_other_index (i + k) i l = before ++ after.
Proof.
  induction l as [|a l IH]; intros i k x Hk; [destruct k; discriminate|].
  cbn [filter_other_index]. destruct k as [|k].
  - injection Hk as <-. exists [], l. split; [reflexivity|].
    replace (i + 0)%nat with i by lia. rewrite Nat.eqb_refl.
    apply filter_other_index_past. lia.
  - cbn [nth_error] in Hk.
    destruct (IH (S i) k x Hk) as (before & after & -> & Hrest).
    exists (a :: before), after. split; [reflexivity|].
    replace (i =? i + S k)%nat with false
      by (symmetry; apply Nat.eqb_neq; lia).
    replace (i + S k)%nat with (S i + k)%nat by lia.
    rewrite Hrest. reflexivity.
Qed.

Lemma removeTier_split tiers index t :
  nth_error tiers index = Some t ->
  exists before after,
    tiers = before ++ t :: after /\ removeTier index tiers = before ++ after.
Proof.
  intros Hnth. exact (filter_other_index_split tiers 0 index t Hnth).
Qed.

Lemma find_applicable_unique tiers h u :
  well_formed_tiers tiers -> 0 <= h ->
  In u tiers -> tier_applies h u = true ->
  forall sub, (forall x, In x sub -> In x tiers) -> In u sub ->
  discountPercent sub h = discount_percent u.
Proof.
  intros Hwf Hh Hu Happ sub Hsub Hin.
  unfold discountPercent, applicableTier.
  destruct (find_exists (tier_applies h) (sort_tiers sub) u) as [x Hx];
    [apply (Permutation_in _ (sort_tiers_perm sub)); exact Hin | exact Happ|].
  rewrite Hx. apply find_some in Hx as [Hx Happ_x].
  apply (Permutation_in _ (Permutation_sym (sort_tiers_perm sub))) in Hx.
  rewrite (well_formed_unique tiers h x u Hwf Hh); auto.
Qed.

(** X23. Removing a tier from a well-formed table leaves a gap: the hour
    values that the removed tier served get no discount at all, every
    other non-negative hour value keeps the discount it had. *)
Theorem X23_removed_tier_leaves_gap (tiers : list PricingTier) (index : nat)
  (t : PricingTier) (h : Q) :
  well_formed_tiers tiers -> 0 <= h ->
  nth_error tiers index = Some t ->
  discountPercent (removeTier index tiers) h
  = if tier_applies h t then 0 else discountPercent tiers h.
Proof.
  intros Hwf Hh Hnth.
  destruct (removeTier_split tiers index t Hnth)
    as (before & after & Htiers & ->).
  destruct (tier_applies h t) eqn:Happ.
  - pose proof (Hwf h Hh) as Hone. rewrite Htiers in Hone.
    rewrite filter_app in Hone. cbn [filter] in Hone. rewrite Happ in Hone.
    rewrite length_app in Hone. cbn [length] in Hone.
    unfold discountPercent, applicableTier.
    destruct (find (tier_applies h) (sort_tiers (before ++ after)))
      as [x|] eqn:E; [|reflexivity].
    exfalso. apply find_some in E as [Hx Happ_x].
    apply (Permutation_in _ (Permutation_sym (sort_tiers_perm _))) in Hx.
    apply in_app_or in Hx as [Hx|Hx].
    + assert (In x (filter (tier_applies h) before))
        by (apply filter_In; auto).
      destruct (filter (tier_applies h) before); [contradiction|].
      cbn [length] in Hone. lia.
    + assert (In x (filter (tier_applies h) after))
        by (apply filter_In; auto).
      destruct (filter (tier_applies h) after); [contradiction|].
      cbn [length] in Hone. lia.
  - destruct (well_formed_applicable tiers h Hwf Hh) as [u Hu].
    unfold discountPercent at 2. rewrite Hu.
    unfold applicableTier in Hu. apply find_some in Hu as [Hin Happ_u].
    apply (Permutation_in _ (Permutation_sym (sort_tiers_perm tiers))) in Hin.
    apply (find_applicable_unique tiers h u Hwf Hh Hin Happ_u).
    + intros x Hx. rewrite Htiers. apply in_app_or in Hx as [Hx|Hx];
        apply in_or_app; [left | right; right]; exact Hx.
    + rewrite Htiers in Hin. apply in_app_or in Hin as [Hin|[Hin|Hin]].
      * apply in_or_app. left. exact Hin.
      * subst u. congruence.
      * apply in_or_app. right. exact Hin.
Qed.

Lemma X23_removed_tier_witness :
  well_formed_tiers default_tiers /\ 0 <= 600
  /\ nth_error default_tiers 1 = Some (mkTier "tier2" 500 (Hours 1500) 10)
  /\ discountPercent default_tiers 600 = 10
  /\ discountPercent (removeTier 1 default_tiers) 600 = 0.
Proof.
  assert (Hwf : well_formed_tiers default_tiers)
    by (apply chained_well_formed; reflexivity).
  split; [exact Hwf|]. split; [discriminate|]. split; [reflexivity|].
  split; [reflexivity|].
  exact (X23_removed_tier_leaves_gap default_tiers 1
           (mkTier "tier2" 500 (Hours 1500) 10) 600 Hwf
           ltac:(discriminate) eq_refl).
Defined.

(** ** The speed notice of the quote display *)

(** X24. For a maximum flow rate that is absent or not negative, the
    quote display shows its speed-reduction notice exactly when the
    material has a positive maximum flow rate below the theoretical rate,
    and the percentage it shows lies between 0 and 100. *)
Theorem X24_speed_notice (m : Material) (d h : Q) (s : Settings) :
  (forall rate, max_flow_rate_mm3_s m = Some rate -> 0 <= rate) ->
  (shows_speed_notice (Sim.speedScalingFactor m d h s) = true
   <-> exists rate, max_flow_rate_mm3_s m = Some rate /\ 0 < rate
                    /\ rate < Sim.theoreticalFlowRate d h s)
  /\ (0 <= speedReductionPercent (Sim.speedScalingFactor m d h s) <= 100)%Z.
Proof.
  intros Hflow.
  pose proof (speedScalingFactor_range m d h s Hflow) as [Hpos Hle].
  split.
  - unfold shows_speed_notice. rewrite Qlt_bool_iff.
    destruct (speedScalingFactor_cases m d h s)
      as [[Hn ->] | [(r & Hr & Hside & ->) | (r & Hr & Hnz & Hlt & Hf)]].
    + split; [lra|]. intros (rate & Hrate & _). congruence.
    + split; [lra|]. intros (rate & Hrate & Hp & Hlt).
      rewrite Hr in Hrate. injection Hrate as <-. destruct Hside; lra.
    + assert (0 < r).
      { pose proof (Hflow r Hr) as H0.
        destruct (Qle_lt_or_eq _ _ H0) as [H|H];
          [exact H | symmetry in H; contradiction]. }
      split; [intros _; exists r; auto|].
      intros _. rewrite Hf. apply Qdiv_lt_1; lra.
  - unfold speedReductionPercent.
    pose proof (js_round_bounds ((1 - Sim.speedScalingFactor m d h s) * 100))
      as [Hr1 Hr2].
    split.
    + unfold js_round.
      apply Z.le_trans with (Qfloor (inject_Z 0));
        [rewrite Qfloor_Z; apply Z.le_refl|].
      apply Qfloor_resp_le. change (inject_Z 0) with 0. lra.
    + apply Z.lt_succ_r. rewrite Zlt_Qlt.
      change (inject_Z (Z.succ 100)) with 101. lra.
Qed.

Lemma X24_speed_notice_witness :
  shows_speed_notice
    (Sim.speedScalingFactor pla (6 # 10) (36 # 100) default_settings) = true
  /\ (0 <= speedReductionPercent
             (Sim.speedScalingFactor pla (6 # 10) (36 # 100) default_settings)
       <= 100)%Z.
Proof.
  split; [reflexivity|].
  apply (X24_speed_notice pla (6 # 10) (36 # 100) default_settings).
  intros rate H. injection H as <-. discriminate.
Defined.

(** A flow limit that bites by less than half a percent: the notice is
    shown and says 0 %. *)
Example speed_notice_zero_percent :
  shows_speed_notice (997 # 1000) = true
  /\ speedReductionPercent (997 # 1000) = 0%Z.
Proof. split; reflexivity. Qed.

(** ** Orientation of the part on the bed *)

(** X25. A quarter turn of the part about the vertical axis, which
    exchanges its x and y extents, does not change the quote. *)
Theorem X25_quote_ignores_quarter_turn (v : ValidationResult) (m : Material)
  (n l i w : Q) (s : Settings) (sp : Q) :
  same_outcome (calculateQuoteLocally (quarter_turn v) m n l i w s sp)
               (calculateQuoteLocally v m n l i w s sp).
Proof.
  unfold calculateQuoteLocally, quarter_turn.
  cbn [volume_cm3 dimensions_mm].
  destruct (volume_cm3 v) as [[vol|]|]; [|reflexivity|reflexivity].
  destruct (dimensions_mm v) as [[x y z]|];
    [|cbn [present negb]; rewrite orb_true_r; reflexivity].
  cbn [present negb]. rewrite orb_false_r.
  destruct (negb (truthy_number (Some (Js.Fin vol)))); [reflexivity|].
  cbn [same_outcome Sim.result time_hours material_grams speedScalingFactor].
  assert (Hperimeter :
            Sim.avg_perimeter_mm (mkDimensions y x z)
            == Sim.avg_perimeter_mm (mkDimensions x y z))
    by (unfold Sim.avg_perimeter_mm; cbn [dim_x dim_y]; ring).
  assert (Hwall :
            Sim.wall_path_length_per_layer_mm (mkDimensions y x z) w
            == Sim.wall_path_length_per_layer_mm (mkDimensions x y z) w)
    by (unfold Sim.wall_path_length_per_layer_mm; rewrite Hperimeter;
        reflexivity).
  assert (Hinfill :
            Sim.infill_path_length_per_layer_mm (mkDimensions y x z) vol n i w
            == Sim.infill_path_length_per_layer_mm (mkDimensions x y z) vol n
                 i w).
  { unfold Sim.infill_path_length_per_layer_mm, Sim.infill_area_per_layer_mm2,
      Sim.wall_area_per_layer_mm2.
    rewrite Hwall. reflexivity. }
  assert (Htravel :
            Sim.time_travel_s (mkDimensions y x z) l s
            == Sim.time_travel_s (mkDimensions x y z) l s)
    by (unfold Sim.time_travel_s, Sim.num_layers, Qdiv;
        cbn [dim_x dim_y dim_z]; ring).
  split; [|split; [|reflexivity]].
  - unfold Sim.time_hours, Sim.final_time_s, Sim.base_time_s,
      Sim.time_support_s, Sim.total_print_time_s, Sim.time_walls_s,
      Sim.time_infill_s.
    rewrite Hwall, Hinfill, Htravel. reflexivity.
  - unfold Sim.material_grams, Sim.final_volume_cm3, Sim.support_volume_cm3,
      Sim.model_volume_cm3, Sim.wall_volume_mm3, Sim.infill_volume_mm3.
    rewrite Hwall, Hinfill. reflexivity.
Qed.
